(** * fizzezpy: interval grouping and correlation unstacking

    A shallow embedding of [src/modules/math_utils.py],
    [src/modules/data_proc_utils.py] and [src/modules/exec_utils.py], and
    the properties of [get_consecutive_num_intervals] and [unstack_corr_df]
    stated in the specification of the repository.  The repository pins no
    version of NumPy or pandas: where their versions differ in what the
    code meets, the version is a parameter. *)

From Stdlib Require Import ZArith List Lia Bool String Ascii DecimalString.
From Stdlib Require Import Permutation Sorted.
From Stdlib Require Import Floats.SpecFloat.
From stdpp Require Import gmap strings.
Import ListNotations.
Local Open Scope string_scope.
Local Open Scope list_scope.
Local Open Scope Z_scope.

(** ** Python results

    A call either returns a value or raises.  Only the exception classes the
    modules can reach are listed. *)

Inductive exn : Type :=
| TypeError
| IndexError
| ValueError
| KeyError
| NameError
| AttributeError
| OSError.

Inductive result (A : Type) : Type :=
| Ok (a : A)
| Raise (e : exn).

Arguments Ok {A} a.
Arguments Raise {A} e.

Definition rbind {A B : Type} (m : result A) (k : A -> result B) : result B :=
  match m with
  | Ok a => k a
  | Raise e => Raise e
  end.

Declare Scope py_scope.
Delimit Scope py_scope with py.
Notation "x <- m ;; k" := (rbind m (fun x => k))
  (at level 100, m at next level, right associativity) : py_scope.

(** [[f(x) for x in l]] where [f] may raise: the first exception wins. *)
Fixpoint comprehension {A B : Type} (f : A -> result B) (l : list A)
  : result (list B) :=
  match l with
  | [] => Ok []
  | x :: t =>
      (y <- f x ;;
       ys <- comprehension f t ;;
       Ok (y :: ys))%py
  end.

(** [enumerate(l)], counting from [i]. *)
Fixpoint enumerate_from {A : Type} (i : Z) (l : list A) : list (Z * A) :=
  match l with
  | [] => []
  | x :: t => (i, x) :: enumerate_from (i + 1) t
  end.

Definition enumerate {A : Type} (l : list A) : list (Z * A) :=
  enumerate_from 0 l.

(** [len(l)] as a Python int. *)
Definition len {A : Type} (l : list A) : Z := Z.of_nat (length l).

(** ** The part of NumPy the interval grouper uses

    [arr] is a Python list of ints that fit in 64 bits (or an int64 array).
    An array carries its dtype and the numeric value of each element.  The
    float64 arrays that occur below hold index values only (-1, 0, ...,
    [len(arr)]), which float64 represents exactly, so their elements are kept
    as integers; index arithmetic stays far below 2^63.  Differences of the
    data, in contrast, are taken in int64 and wrap around. *)

Module np.

Inductive dtype : Type := int64 | float64.

(** NumPy's type promotion on the two dtypes that occur. *)
Definition promote (a b : dtype) : dtype :=
  match a, b with
  | int64, int64 => int64
  | _, _ => float64
  end.

(** One-dimensional array. *)
Record ndarray : Type := mk_ndarray { dt : dtype; items : list Z }.

(** Array of shape (k, 2): one [(start, end)] pair per row. *)
Record ndarray2 : Type := mk_ndarray2 { dt2 : dtype; rows : list (Z * Z) }.

Definition wrap64 (z : Z) : Z :=
  (z + 2 ^ 63) mod 2 ^ 64 - 2 ^ 63.

(** [np.diff(arr)]: [arr[1:] - arr[:-1]] in int64. *)
Fixpoint diff (arr : list Z) : list Z :=
  match arr with
  | [] => []
  | a :: t =>
      match t with
      | [] => []
      | b :: _ => wrap64 (b - a) :: diff t
      end
  end.

(** [np.atleast_1d] of a Python int. *)
Definition of_int (z : Z) : ndarray := mk_ndarray int64 [z].

(** [np.atleast_1d] of a Python list of ints: the empty list has no element
    to take a dtype from and becomes a float64 array. *)
Definition of_list (l : list Z) : ndarray :=
  match l with
  | [] => mk_ndarray float64 []
  | _ :: _ => mk_ndarray int64 l
  end.

(** [np.concatenate] of one-dimensional arrays: the dtypes of all pieces are
    promoted, empty pieces included. *)
Definition concatenate (pieces : list ndarray) : ndarray :=
  mk_ndarray (fold_right promote int64 (map dt pieces))
             (concat (map items pieces)).

(** [a[:-1]] and [a[1:]]. *)
Definition but_last (a : ndarray) : ndarray :=
  mk_ndarray (dt a) (removelast (items a)).

Definition from_1 (a : ndarray) : ndarray :=
  mk_ndarray (dt a) (tl (items a)).

(** [a + k] for a Python int [k]. *)
Definition add_int (a : ndarray) (k : Z) : ndarray :=
  mk_ndarray (dt a) (map (fun x => x + k) (items a)).

(** [np.vstack([a, b]).T] for two one-dimensional arrays. *)
Definition vstack_T (a b : ndarray) : result ndarray2 :=
  if Nat.eqb (length (items a)) (length (items b))
  then Ok (mk_ndarray2 (promote (dt a) (dt b)) (combine (items a) (items b)))
  else Raise ValueError.

(** The integers [start], [start + 1], ..., [stop - 1]. *)
Definition int_range (start stop : Z) : list Z :=
  map (fun k => start + Z.of_nat k) (seq 0 (Z.to_nat (stop - start))).

Definition fits_int64 (z : Z) : bool :=
  (- 2 ^ 63 <=? z) && (z <? 2 ^ 63).

(** The float64 nearest to an integer, ties to even, as the integer that
    float64 holds (53 bits of mantissa; the integers met here are far from
    the largest float64). *)
Definition to_float64 (z : Z) : Z :=
  let a := Z.abs z in
  if a <? 2 ^ 53 then z
  else
    let e := Z.log2 a - 52 in
    let q := a / 2 ^ e in
    let r := a mod 2 ^ e in
    let q' :=
      if r <? 2 ^ (e - 1) then q
      else if 2 ^ (e - 1) <? r then q + 1
      else if Z.even q then q else q + 1 in
    Z.sgn z * (q' * 2 ^ e).

(** The number of elements of [np.arange(start, stop)]: [stop - start]
    divided by the step 1 as a float64, and none when that is negative. *)
Definition arange_length (start stop : Z) : nat :=
  Z.to_nat (to_float64 (stop - start)).

(** [np.arange(start, stop)] on two Python ints, of which [start] is an
    int64 and [stop] is one more than an int64, as in
    [get_consecutive_num_intervals] on a list of int64.  When both fit in
    int64 the array is int64 and counts up from [start].  When [stop] does
    not (it is 2^63, one more than the largest int64, a uint64 for NumPy),
    the array is float64: its first two elements are [start] and
    [start + 1] as float64, and the others are filled in float64 from the
    first and the difference of the first two. *)
Definition arange (start stop : Z) : ndarray :=
  if fits_int64 start && fits_int64 stop
  then mk_ndarray int64
         (map (fun k => start + Z.of_nat k) (seq 0 (arange_length start stop)))
  else
    let first := to_float64 start in
    let next := to_float64 (start + 1) in
    let delta := to_float64 (next - first) in
    mk_ndarray float64
      (map (fun i =>
              match i with
              | O => first
              | S O => next
              | _ => to_float64 (first + to_float64 (Z.of_nat i * delta))
              end)
           (seq 0 (arange_length start stop))).

Definition same_lengths (runs : list ndarray) : bool :=
  match runs with
  | [] => true
  | r :: t =>
      forallb (fun r' => Nat.eqb (length (items r')) (length (items r))) t
  end.

Definition all_int64 (runs : list ndarray) : bool :=
  forallb (fun r => match dt r with int64 => true | float64 => false end)
          runs.

(** [np.array(runs)] on a list of one-dimensional arrays.  Runs of one
    length make a two-dimensional array, float64 as soon as one run is.
    Runs of different lengths made an array of arrays up to NumPy 1.23
    ([ragged_arrays = true]) and raise ValueError from NumPy 1.24 on
    ([ragged_arrays = false]).  Either way the result is kept as the list
    of its rows. *)
Definition array (ragged_arrays : bool) (runs : list ndarray)
  : result (list (list Z)) :=
  if same_lengths runs
  then Ok (if all_int64 runs then map items runs
           else map (fun r => map to_float64 (items r)) runs)
  else if ragged_arrays then Ok (map items runs)
  else Raise ValueError.

End np.

(** [arr[i]] on a Python list, where [i] is an element of an array of dtype
    [d]: a [numpy.float64] is not an index; an int indexes from the end when
    negative. *)
Definition list_getitem (arr : list Z) (d : np.dtype) (i : Z) : result Z :=
  match d with
  | np.float64 => Raise TypeError
  | np.int64 =>
      let j := if i <? 0 then i + len arr else i in
      if (0 <=? j) && (j <? len arr)
      then match nth_error arr (Z.to_nat j) with
           | Some v => Ok v
           | None => Raise IndexError
           end
      else Raise IndexError
  end.

(** What [get_consecutive_num_intervals] returns: the index pairs, or the
    runs of values, kept as the list of the rows of what [np.array] built. *)
Inductive grouping : Type :=
| Intervals (bound_idx : np.ndarray2)
| Groups (runs : list (list Z)).

(** ** Python values held by frames

    Labels are strings, correlations are float64 ([spec_float], with its NaN,
    infinities and signed zeros; a float64 is a [spec_float] in canonical
    form, and nothing below depends on the form), positions and the default
    column name are ints, and an unnamed axis has the name [None]. *)

Inductive pyval : Type :=
| PStr (s : string)
| PFloat (x : spec_float)
| PInt (n : Z)
| PNone.

#[global] Instance spec_float_eq_dec : EqDecision spec_float.
Proof. solve_decision. Defined.

#[global] Instance pyval_eq_dec : EqDecision pyval.
Proof. solve_decision. Defined.

(** [a != b] and [a < b] on two values of one type; the frames of
    [unstack_corr_df] compare labels with labels only. *)
Definition py_ne (a b : pyval) : bool :=
  match a, b with
  | PStr s, PStr t => negb (String.eqb s t)
  | PFloat x, PFloat y => negb (SFeqb x y)
  | PInt m, PInt n => negb (m =? n)
  | PNone, PNone => false
  | _, _ => true
  end.

Definition py_lt (a b : pyval) : result bool :=
  match a, b with
  | PStr s, PStr t => Ok (String.ltb s t)
  | PFloat x, PFloat y => Ok (SFltb x y)
  | PInt m, PInt n => Ok (m <? n)
  | _, _ => Raise TypeError
  end.

(** [sorted(l)]: a stable sort that only asks [<]. *)
Fixpoint py_insert (x : pyval) (l : list pyval) : result (list pyval) :=
  match l with
  | [] => Ok [x]
  | y :: t =>
      (b <- py_lt y x ;;
       if b then (t' <- py_insert x t ;; Ok (y :: t'))
       else Ok (x :: y :: t))%py
  end.

Fixpoint py_sorted (l : list pyval) : result (list pyval) :=
  match l with
  | [] => Ok []
  | x :: t => (t' <- py_sorted t ;; py_insert x t')%py
  end.

(** The order [Series.sort_values] puts float64 values in: by [<=] upwards
    or downwards, NaN after everything else in both directions
    ([na_position='last']). *)
Definition is_nan (x : spec_float) : bool :=
  match x with
  | S754_nan => true
  | _ => false
  end.

Definition na_last (ascending : bool) (x y : spec_float) : bool :=
  if is_nan y then true
  else if is_nan x then false
  else if ascending then SFleb x y else SFleb y x.

(** ** The part of pandas the unstacker uses *)

Module pd.

(** A Series: the names of its index levels, its own name, and one
    (index tuple, value) entry per row. *)
Record Series (A : Type) : Type := mk_Series {
  s_names : list pyval;
  s_name : pyval;
  s_items : list (list pyval * A)
}.

Arguments mk_Series {A} _ _ _.
Arguments s_names {A} _.
Arguments s_name {A} _.
Arguments s_items {A} _.

(** A DataFrame: the names of its index levels, its column labels, the name
    of the column axis, and one (index tuple, cells) entry per row. *)
Record DataFrame : Type := mk_DataFrame {
  index_names : list pyval;
  columns : list pyval;
  columns_name : pyval;
  rows : list (list pyval * list pyval)
}.

(** The default index 0, 1, ..., n-1. *)
Definition range_index (n : nat) : list (list pyval) :=
  map (fun k => [PInt (Z.of_nat k)]) (seq 0 n).

Fixpoint position (name : pyval) (cols : list pyval) : option nat :=
  match cols with
  | [] => None
  | c :: t =>
      if bool_decide (c = name) then Some 0%nat
      else option_map S (position name t)
  end.

Definition cell (j : nat) (cells : list pyval) : pyval :=
  nth j cells (PFloat S754_nan).

(** Some entry of the list occurs twice. *)
Fixpoint has_duplicates (l : list (list pyval)) : bool :=
  match l with
  | [] => false
  | x :: t => existsb (fun y => bool_decide (y = x)) t || has_duplicates t
  end.

(** [df.unstack()] on a frame with a flat index, which is [df.T.stack()]
    with the missing cells kept: the Series of all cells under the two-level
    index (column label, row label), column by column.  From pandas 2.1 on
    ([new_stack = true]) the stacking of [df.T] raises ValueError when two
    columns of [df.T], the rows of [df], carry one label; before
    ([new_stack = false]) it returns on such labels too.  (With a MultiIndex
    the result is a frame, on which the next call,
    [sort_values(ascending=...)], is a TypeError.) *)
Definition unstack (new_stack : bool) (df : DataFrame)
  : result (Series pyval) :=
  match index_names df with
  | [name] =>
      if new_stack && has_duplicates (map fst (rows df))
      then Raise ValueError
      else
        Ok (mk_Series [columns_name df; name] PNone
              (flat_map
                 (fun '(j, c) =>
                    map (fun '(i, cells) => (c :: i, cell j cells)) (rows df))
                 (combine (seq 0 (length (columns df))) (columns df))))
  | _ => Raise TypeError
  end.

Definition as_float (v : pyval) : result spec_float :=
  match v with
  | PFloat x => Ok x
  | _ => Raise TypeError
  end.

Section Sorting.

(** [kind='quicksort'], the default of [sort_values], is NumPy's unstable
    sort: the order it leaves equal values in is not documented, so the sort
    is a parameter and only its contract is used. *)
Variable quicksort :
  bool -> list (list pyval * spec_float) -> list (list pyval * spec_float).

(** [s.sort_values(ascending=ascending)] on a float64 Series. *)
Definition sort_values (s : Series pyval) (ascending : bool)
  : result (Series pyval) :=
  (items <- comprehension
              (fun '(i, v) => x <- as_float v ;; Ok (i, x)) (s_items s) ;;
   Ok (mk_Series (s_names s) (s_name s)
         (map (fun '(i, x) => (i, PFloat x)) (quicksort ascending items))))%py.

End Sorting.

(** [s.to_frame()]: one column, named after the Series, or 0. *)
Definition to_frame (s : Series pyval) : DataFrame :=
  mk_DataFrame (s_names s)
    [match s_name s with PNone => PInt 0 | n => n end]
    PNone
    (map (fun '(i, v) => (i, [v])) (s_items s)).

(** The column labels [reset_index] gives to the index levels. *)
Definition level_labels (names : list pyval) : list pyval :=
  match names with
  | [PNone] => [PStr "index"]
  | _ =>
      map (fun '(k, n) =>
             match n with
             | PNone =>
                 PStr ("level_" ++ NilEmpty.string_of_uint (Nat.to_uint k))%string
             | _ => n
             end)
          (combine (seq 0 (length names)) names)
  end.

(** [df.reset_index(drop=drop)]: the index becomes 0..n-1; unless dropped,
    its levels are inserted as the first columns. *)
Definition reset_index (df : DataFrame) (drop : bool) : result DataFrame :=
  let index := range_index (length (rows df)) in
  if drop then
    Ok (mk_DataFrame [PNone] (columns df) (columns_name df)
          (combine index (map snd (rows df))))
  else
    let labels := level_labels (index_names df) in
    if existsb (fun n => existsb (fun c => bool_decide (c = n)) (columns df))
               labels
    then Raise ValueError
    else
      Ok (mk_DataFrame [PNone] (labels ++ columns df) (columns_name df)
            (combine index (map (fun '(i, cells) => i ++ cells) (rows df)))).

(** [df.query('a != b')] for two column names. *)
Definition query_ne (df : DataFrame) (a b : string) : result DataFrame :=
  match position (PStr a) (columns df), position (PStr b) (columns df) with
  | Some ja, Some jb =>
      Ok (mk_DataFrame (index_names df) (columns df) (columns_name df)
            (List.filter
               (fun '(_, cells) => py_ne (cell ja cells) (cell jb cells))
               (rows df)))
  | _, _ => Raise NameError
  end.

(** [df[[name, ...]]]. *)
Definition getitem_columns (df : DataFrame) (names : list pyval)
  : result DataFrame :=
  (js <- comprehension
           (fun n => match position n (columns df) with
                     | Some j => Ok j
                     | None => Raise KeyError
                     end) names ;;
   Ok (mk_DataFrame (index_names df) names (columns_name df)
         (map (fun '(i, cells) => (i, map (fun j => cell j cells) js))
              (rows df))))%py.

(** [df.apply(sorted, 1)]: the Series of the sorted rows, as lists. *)
Definition apply_sorted (df : DataFrame) : result (Series (list pyval)) :=
  (items <- comprehension
              (fun '(i, cells) => l <- py_sorted cells ;; Ok (i, l))
              (rows df) ;;
   Ok (mk_Series (index_names df) PNone items))%py.

Section Str.

(** [str] of a Python list.  Only this is used of it: on lists of strings it
    is injective (the text is the list literal). *)
Variable py_str : list pyval -> string.

(** [s.astype(str)] on a Series of lists. *)
Definition astype_str (s : Series (list pyval)) : Series string :=
  mk_Series (s_names s) (s_name s)
    (map (fun '(i, l) => (i, py_str l)) (s_items s)).

End Str.

(** [s.duplicated()]: true on every entry whose value occurred before. *)
Fixpoint duplicated_from (seen : list string)
  (items : list (list pyval * string)) : list (list pyval * bool) :=
  match items with
  | [] => []
  | (i, k) :: t =>
      (i, existsb (String.eqb k) seen) :: duplicated_from (k :: seen) t
  end.

Definition duplicated (s : Series string) : Series bool :=
  mk_Series (s_names s) (s_name s) (duplicated_from [] (s_items s)).

(** [~s]. *)
Definition invert (s : Series bool) : Series bool :=
  mk_Series (s_names s) (s_name s)
    (map (fun '(i, b) => (i, negb b)) (s_items s)).

(** [df[mask]] for a boolean Series: position by position when the two
    indexes are equal; otherwise the mask is first aligned on the index of
    the frame, which fails on a label the mask does not have. *)
Definition getitem_mask (df : DataFrame) (mask : Series bool)
  : result DataFrame :=
  (aligned <-
     (if bool_decide (map fst (s_items mask) = map fst (rows df))
      then Ok (map snd (s_items mask))
      else comprehension
             (fun '(i, _) =>
                match List.find (fun '(i', _) => bool_decide (i' = i))
                                (s_items mask) with
                | Some (_, keep) => Ok keep
                | None => Raise IndexError
                end)
             (rows df)) ;;
   Ok (mk_DataFrame (index_names df) (columns df) (columns_name df)
         (map snd (List.filter fst (combine aligned (rows df))))))%py.

(** [df.columns = names]. *)
Definition set_columns (df : DataFrame) (names : list pyval)
  : result DataFrame :=
  if Nat.eqb (length names) (length (columns df))
  then Ok (mk_DataFrame (index_names df) names PNone (rows df))
  else Raise ValueError.

End pd.

(** ** Python objects and in-place updates

    [unstack_corr_df] receives a reference to [corr] and updates frames in
    place ([inplace=True], assignment to [columns]).  Frames and Series live
    in a store; a call threads the store and leaves it behind also when it
    raises. *)

Abbreviation loc := nat (only parsing).

Inductive pyobj : Type :=
| ODataFrame (df : pd.DataFrame)
| OSeries (s : pd.Series pyval).

Abbreviation store := (gmap nat pyobj) (only parsing).

Definition py (A : Type) : Type := store -> result A * store.

Definition ret {A : Type} (a : A) : py A := fun h => (Ok a, h).

Definition bind {A B : Type} (m : py A) (k : A -> py B) : py B :=
  fun h =>
    match m h with
    | (Ok a, h') => k a h'
    | (Raise e, h') => (Raise e, h')
    end.

Declare Scope store_scope.
Delimit Scope store_scope with store.
Notation "x <- m ;; k" := (bind m (fun x => k))
  (at level 100, m at next level, right associativity) : store_scope.

(** A pure step that may raise. *)
Definition lift {A : Type} (r : result A) : py A := fun h => (r, h).

(** A new object, at a reference not in use. *)
Definition alloc (o : pyobj) : py loc :=
  fun h => let l := fresh (dom h) in (Ok l, <[l := o]> h).

Definition get_frame (l : loc) : py pd.DataFrame :=
  fun h =>
    match h !! l with
    | Some (ODataFrame df) => (Ok df, h)
    | _ => (Raise AttributeError, h)
    end.

Definition get_series (l : loc) : py (pd.Series pyval) :=
  fun h =>
    match h !! l with
    | Some (OSeries s) => (Ok s, h)
    | _ => (Raise AttributeError, h)
    end.

(** Overwrite the object at [l]. *)
Definition put (l : loc) (o : pyobj) : py unit :=
  fun h => (Ok tt, <[l := o]> h).

(** A run from a store that extends [h0] ends in a store that extends
    [h0], whether it returns or raises, and what it returns satisfies [Q]. *)
Definition keeps (h0 : store) {A : Type} (m : py A) (Q : A -> Prop) : Prop :=
  forall h, h0 ⊆ h ->
    match m h with
    | (Ok a, h') => h0 ⊆ h' /\ Q a
    | (Raise _, h') => h0 ⊆ h'
    end.

(** ** math_utils.py *)

Module math_utils.

Section NumPy.

(** Which NumPy runs the code: before 1.24 ([true]), where [np.array]
    builds an array of arrays from runs of different lengths, or 1.24 and
    later ([false]), where it raises.  The repository pins no version. *)
Variable ragged_arrays : bool.

Definition get_consecutive_num_intervals (arr : list Z) (ret_idx : bool)
  : result grouping :=
  let bound_idx :=
    map fst (List.filter (fun '(_i, _diff) => negb (_diff =? 1))
                         (enumerate (np.diff arr))) in
  let bound_idx :=
    np.concatenate [np.of_int (-1); np.of_list bound_idx;
                    np.of_int (len arr - 1)] in
  (bound_idx <- np.vstack_T (np.add_int (np.but_last bound_idx) 1)
                            (np.from_1 bound_idx) ;;
   if ret_idx then Ok (Intervals bound_idx)
   else
     runs <- comprehension
               (fun '(_s, _e) =>
                  lo <- list_getitem arr (np.dt2 bound_idx) _s ;;
                  hi <- list_getitem arr (np.dt2 bound_idx) _e ;;
                  Ok (np.arange lo (hi + 1)))
               (np.rows bound_idx) ;;
     runs <- np.array ragged_arrays runs ;;
     Ok (Groups runs))%py.

End NumPy.

End math_utils.

(** ** data_proc_utils.py *)

Module data_proc_utils.

Section NumPy.

(** Which NumPy runs the code: before 1.24 ([true]), where [np.array]
    builds an array of arrays from runs of different lengths, or 1.24 and
    later ([false]), where it raises.  The repository pins no version. *)
Variable ragged_arrays : bool.

Definition get_consecutive_num_intervals (arr : list Z) (ret_idx : bool)
  : result grouping :=
  let bound_idx :=
    map fst (List.filter (fun '(_i, _diff) => negb (_diff =? 1))
                         (enumerate (np.diff arr))) in
  let bound_idx :=
    np.concatenate [np.of_int (-1); np.of_list bound_idx;
                    np.of_int (len arr - 1)] in
  (bound_idx <- np.vstack_T (np.add_int (np.but_last bound_idx) 1)
                            (np.from_1 bound_idx) ;;
   if ret_idx then Ok (Intervals bound_idx)
   else
     runs <- comprehension
               (fun '(_s, _e) =>
                  lo <- list_getitem arr (np.dt2 bound_idx) _s ;;
                  hi <- list_getitem arr (np.dt2 bound_idx) _e ;;
                  Ok (np.arange lo (hi + 1)))
               (np.rows bound_idx) ;;
     runs <- np.array ragged_arrays runs ;;
     Ok (Groups runs))%py.

End NumPy.

Section Unstack.

(** Which pandas runs the code: 2.1 and later ([true]) or an earlier one
    ([false]).  The repository pins no version. *)
Variable new_stack : bool.
Variable quicksort :
  bool -> list (list pyval * spec_float) -> list (list pyval * spec_float).
Variable py_str : list pyval -> string.

(** Methods that return a new object. *)
Definition DataFrame_unstack (self : loc) : py loc :=
  (df <- get_frame self ;;
   s <- lift (pd.unstack new_stack df) ;;
   alloc (OSeries s))%store.

Definition Series_sort_values (self : loc) (ascending : bool) : py loc :=
  (s <- get_series self ;;
   s' <- lift (pd.sort_values quicksort s ascending) ;;
   alloc (OSeries s'))%store.

Definition Series_to_frame (self : loc) : py loc :=
  (s <- get_series self ;;
   alloc (ODataFrame (pd.to_frame s)))%store.

Definition DataFrame_query_ne (self : loc) (a b : string) : py loc :=
  (df <- get_frame self ;;
   df' <- lift (pd.query_ne df a b) ;;
   alloc (ODataFrame df'))%store.

Definition DataFrame_getitem_columns (self : loc) (names : list pyval)
  : py loc :=
  (df <- get_frame self ;;
   df' <- lift (pd.getitem_columns df names) ;;
   alloc (ODataFrame df'))%store.

Definition DataFrame_getitem_mask (self : loc) (mask : pd.Series bool)
  : py loc :=
  (df <- get_frame self ;;
   df' <- lift (pd.getitem_mask df mask) ;;
   alloc (ODataFrame df'))%store.

(** [df.apply(sorted, 1)]; the Series it returns, and those derived from it,
    are temporaries that nothing updates: they are passed by value. *)
Definition DataFrame_apply_sorted (self : loc) : py (pd.Series (list pyval)) :=
  (df <- get_frame self ;;
   lift (pd.apply_sorted df))%store.

(** Updates in place. *)
Definition DataFrame_reset_index_inplace (self : loc) (drop : bool) : py unit :=
  (df <- get_frame self ;;
   df' <- lift (pd.reset_index df drop) ;;
   put self (ODataFrame df'))%store.

Definition DataFrame_set_columns (self : loc) (names : list pyval) : py unit :=
  (df <- get_frame self ;;
   df' <- lift (pd.set_columns df names) ;;
   put self (ODataFrame df'))%store.

Definition unstack_corr_df (corr : loc) (ascending : bool)
  (col_name_1 col_name_2 : pyval) : py loc :=
  (corr_uns <- DataFrame_unstack corr ;;
   corr_uns_sorted <- Series_sort_values corr_uns ascending ;;
   df_corr <- Series_to_frame corr_uns_sorted ;;
   _ <- DataFrame_reset_index_inplace df_corr false ;;
   df_corr <- DataFrame_query_ne df_corr "level_0" "level_1" ;;
   df_corr_cols <-
     DataFrame_getitem_columns df_corr [PStr "level_0"; PStr "level_1"] ;;
   sorted_pairs <- DataFrame_apply_sorted df_corr_cols ;;
   let dup_mask :=
     pd.invert (pd.duplicated (pd.astype_str py_str sorted_pairs)) in
   df_corr <- DataFrame_getitem_mask df_corr dup_mask ;;
   _ <- DataFrame_set_columns df_corr [col_name_1; col_name_2; PStr "corr"] ;;
   _ <- DataFrame_reset_index_inplace df_corr true ;;
   ret df_corr)%store.

End Unstack.

End data_proc_utils.

(** ** Vocabulary of the specification, for the unstacker *)

(** The correlation matrix over [labels] (rows and columns share them) with
    the entries [vals], row by row, as [DataFrame.corr()] builds it: string
    labels, unnamed axes. *)
Definition corr_matrix (labels : list string) (vals : list (list spec_float))
  : pd.DataFrame :=
  pd.mk_DataFrame [PNone] (map PStr labels) PNone
    (combine (map (fun a => [PStr a]) labels) (map (map PFloat) vals)).

(** [vals] has [n] rows of [n] entries. *)
Definition square (n : nat) (vals : list (list spec_float)) : Prop :=
  length vals = n /\ Forall (fun r => length r = n) vals.

(** Entry (i, j) of [vals]. *)
Definition entry (vals : list (list spec_float)) (i j : nat) : spec_float :=
  nth j (nth i vals []) S754_nan.

Definition symmetric (vals : list (list spec_float)) : Prop :=
  forall i j, entry vals i j = entry vals j i.

Definition no_nan (vals : list (list spec_float)) : Prop :=
  Forall (Forall (fun x => is_nan x = false)) vals.

(** [corr[a][b]]: column [a], then row [b]. *)
Definition getitem2 (corr : pd.DataFrame) (a b : string) : option pyval :=
  match pd.position (PStr a) (pd.columns corr),
        List.find (fun '(i, _) => bool_decide (i = [PStr b])) (pd.rows corr)
  with
  | Some j, Some (_, cells) => Some (pd.cell j cells)
  | _, _ => None
  end.

(** A row of the EdgeTable: two labels and a correlation. *)
Definition edge_row (a b : string) (v : spec_float) : list pyval :=
  [PStr a; PStr b; PFloat v].

(** Two rows stand for the same unordered pair of labels. *)
Definition same_pair (p q : string * string) : Prop :=
  (fst p = fst q /\ snd p = snd q) \/ (fst p = snd q /\ snd p = fst q).

(** ** The unstacker on typed edges

    What the frames of [unstack_corr_df] hold, row by row: an edge is a
    column label, a row label and the entry of the matrix at them. *)

Definition edge : Type := string * string * spec_float.

(** The entry of an edge in the unstacked Series, and its row in a frame. *)
Definition series_item (e : edge) : list pyval * spec_float :=
  let '(c, r, x) := e in ([PStr c; PStr r], x).

Definition edge_cells (e : edge) : list pyval :=
  let '(c, r, x) := e in edge_row c r x.

(** All cells of the matrix, column by column. *)
Definition all_edges (labels : list string) (vals : list (list spec_float))
  : list edge :=
  flat_map
    (fun '(j, c) =>
       map (fun '(r, row) => (c, r, nth j row S754_nan)) (combine labels vals))
    (combine (seq 0 (length labels)) labels).

(** [level_0 != level_1]. *)
Definition is_pair (e : edge) : bool :=
  let '(c, r, _) := e in negb (String.eqb c r).

(** [sorted] on the two labels of an edge. *)
Definition sorted_labels (e : edge) : list pyval :=
  let '(c, r, _) := e in
  if String.ltb r c then [PStr r; PStr c] else [PStr c; PStr r].

(** The entries that [~duplicated()] keeps: the first of each key. *)
Fixpoint first_of_key {A : Type} (key : A -> string) (seen : list string)
  (l : list A) : list A :=
  match l with
  | [] => []
  | x :: t =>
      if existsb (String.eqb (key x)) seen
      then first_of_key key (key x :: seen) t
      else x :: first_of_key key (key x :: seen) t
  end.

(** The key [duplicated()] sees for an edge, and the edges that survive
    the two filters. *)
Definition pair_key (py_str : list pyval -> string) (e : edge) : string :=
  py_str (sorted_labels e).

Definition kept_edges (py_str : list pyval -> string) (edges : list edge)
  : list edge :=
  first_of_key (pair_key py_str) [] (List.filter is_pair edges).

(** The labels of an edge, and all pairs (earlier, later) of a list. *)
Definition labels_of (e : edge) : string * string := fst e.

Fixpoint pairs_of (l : list string) : list (string * string) :=
  match l with
  | [] => []
  | a :: t => map (fun b => (a, b)) t ++ pairs_of t
  end.

(** The key of the unordered pair of two labels. *)
Definition label_key (py_str : list pyval -> string) (p : string * string)
  : string :=
  py_str (if String.ltb (snd p) (fst p)
          then [PStr (snd p); PStr (fst p)]
          else [PStr (fst p); PStr (snd p)]).

(** The unstacked Series of a list of edges. *)
Definition edge_series (edges : list edge) : pd.Series pyval :=
  pd.mk_Series [PNone; PNone] PNone
    (map (fun e => (fst (series_item e), PFloat (snd (series_item e)))) edges).

(** Rows of a long frame: each edge under the position it had when the
    index was reset. *)
Definition numbered_rows (l : list (nat * edge))
  : list (list pyval * list pyval) :=
  map (fun '(k, e) => ([PInt (Z.of_nat k)], edge_cells e)) l.

Definition long_frame (l : list (nat * edge)) : pd.DataFrame :=
  pd.mk_DataFrame [PNone] [PStr "level_0"; PStr "level_1"; PInt 0] PNone
    (numbered_rows l).

(** Number the elements of a list from [i]. *)
Definition number_from {A : Type} (i : nat) (l : list A) : list (nat * A) :=
  combine (seq i (length l)) l.

(** The frame [unstack_corr_df] returns, from its edges. *)
Definition edge_table (col_name_1 col_name_2 : pyval) (edges : list edge)
  : pd.DataFrame :=
  pd.mk_DataFrame [PNone] [col_name_1; col_name_2; PStr "corr"] PNone
    (combine (pd.range_index (length edges)) (map edge_cells edges)).

(** The rows of an EdgeTable ordered by correlation. *)
Definition in_order (ascending : bool) (e1 e2 : edge) : Prop :=
  if ascending then SFleb (snd e1) (snd e2) = true
  else SFleb (snd e2) (snd e1) = true.

(** The value of an edge is the entry of the matrix at its labels, read in
    either orientation. *)
Definition from_matrix (corr : pd.DataFrame) (e : edge) : Prop :=
  getitem2 corr (fst (labels_of e)) (snd (labels_of e)) = Some (PFloat (snd e))
  /\ getitem2 corr (snd (labels_of e)) (fst (labels_of e)) =
       Some (PFloat (snd e)).

(** ** Reference instances of the two parameters *)

(** A three-label matrix in a store, for the examples. *)
Definition example_vals : list (list spec_float) :=
  [[S754_finite false 8 (-3); S754_finite false 5 (-3); S754_finite false 3 (-3)];
   [S754_finite false 5 (-3); S754_finite false 8 (-3); S754_finite false 7 (-3)];
   [S754_finite false 3 (-3); S754_finite false 7 (-3); S754_finite false 8 (-3)]].

Definition example_store : gmap nat pyobj :=
  {[ 5%nat := ODataFrame (corr_matrix ["A"; "B"; "C"] example_vals) ]}.

(** A sort that meets the contract of [quicksort]: stable insertion. *)
Fixpoint insert_by {A : Type} (le : A -> A -> bool) (x : A) (l : list A)
  : list A :=
  match l with
  | [] => [x]
  | y :: t => if le x y then x :: y :: t else y :: insert_by le x t
  end.

Fixpoint sort_by {A : Type} (le : A -> A -> bool) (l : list A) : list A :=
  match l with
  | [] => []
  | x :: t => insert_by le x (sort_by le t)
  end.

Definition insertion_sort (ascending : bool)
  (items : list (list pyval * spec_float)) : list (list pyval * spec_float) :=
  sort_by (fun p q => na_last ascending (snd p) (snd q)) items.

(** An injective rendering of lists of strings: every character is
    announced by [+], every string closed by [.]. *)
Fixpoint render_string (s : string) : string :=
  match s with
  | EmptyString => "."
  | String c r => String "+" (String c (render_string r))
  end.

Fixpoint render_list (l : list pyval) : string :=
  match l with
  | [] => ""
  | PStr s :: t => (render_string s ++ render_list t)%string
  | _ :: t => String "?" (render_list t)
  end.


(** ** Vocabulary of the specification, for the interval grouper *)

(** The inclusive pair [p] contains the index [k]. *)
Definition covers (k : Z) (p : Z * Z) : bool :=
  (fst p <=? k) && (k <=? snd p).

(** Two inclusive pairs share no index. *)
Definition disjoint (p q : Z * Z) : Prop :=
  snd p < fst q \/ snd q < fst p.

(** The pair [q] starts and ends after the pair [p]. *)
Definition ascending (p q : Z * Z) : Prop :=
  fst p < fst q /\ snd p < snd q.

(** The IntervalList [l] partitions the index range [[0, n-1]]. *)
Record partitions (n : Z) (l : list (Z * Z)) : Prop := {
  part_pairs : Forall (fun p => 0 <= fst p <= snd p /\ snd p <= n - 1) l;
  part_disjoint : ForallOrdPairs disjoint l;
  part_cover : forall k, 0 <= k < n ->
                 length (List.filter (covers k) l) = 1%nat;
  part_ascending : StronglySorted ascending l
}.

(** Each element is its predecessor plus one. *)
Definition steps_by_one (arr : list Z) : Prop :=
  forall i a b,
    nth_error arr i = Some a -> nth_error arr (S i) = Some b -> b = a + 1.

(** Non-decreasing, and no gap greater than one between neighbours. *)
Definition non_decreasing_small_gaps (arr : list Z) : Prop :=
  forall i a b,
    nth_error arr i = Some a -> nth_error arr (S i) = Some b ->
    a <= b /\ b - a <= 1.

(** GroupedValues rebuilt from an IntervalList as the specification words it:
    each pair [(s, e)] becomes the integers from [arr[s]] to [arr[e]]. *)
Definition expand_pair (arr : list Z) (p : Z * Z) : option (list Z) :=
  match nth_error arr (Z.to_nat (fst p)), nth_error arr (Z.to_nat (snd p)) with
  | Some lo, Some hi => Some (np.int_range lo (hi + 1))
  | _, _ => None
  end.

Fixpoint expand_intervals (arr : list Z) (l : list (Z * Z))
  : option (list (list Z)) :=
  match l with
  | [] => Some []
  | p :: t =>
      match expand_pair arr p, expand_intervals arr t with
      | Some r, Some rs => Some (r :: rs)
      | _, _ => None
      end
  end.

(** The first value of [bound_idx] in [get_consecutive_num_intervals]: the
    positions whose difference to the next element is not one. *)
Definition bounds_of (arr : list Z) : list Z :=
  map fst (List.filter (fun '(_i, _diff) => negb (_diff =? 1))
                       (enumerate (np.diff arr))).

(** Contiguous inclusive pairs from [lo] up to [hi]: each pair starts where
    the one before it ended, plus one. *)
Inductive tiles (hi : Z) : Z -> list (Z * Z) -> Prop :=
| tiles_nil : tiles hi (hi + 1) []
| tiles_cons lo e l :
    lo <= e <= hi -> tiles hi (e + 1) l -> tiles hi lo ((lo, e) :: l).

(** Every element is an int64 below the largest one, so that one more
    than it is an int64 too. *)
Definition below_int64_max (arr : list Z) : Prop :=
  Forall (fun x => - 2 ^ 63 <= x < 2 ^ 63 - 1) arr.

(** All runs have the length of the first. *)
Definition equal_lengths (gs : list (list Z)) : bool :=
  match gs with
  | [] => true
  | g :: t => forallb (fun g' => Nat.eqb (length g') (length g)) t
  end.

(** The int64 difference [np.diff] computes at position [i]: between
    [arr[i]] and [arr[i+1]]. *)
Definition diff_at (arr : list Z) (i : nat) : option Z :=
  match nth_error arr i, nth_error arr (S i) with
  | Some a, Some b => Some (np.wrap64 (b - a))
  | _, _ => None
  end.

(** Some difference between neighbours is not one: there are two runs at
    least. *)
Definition has_break (arr : list Z) : Prop :=
  exists i d, diff_at arr i = Some d /\ d <> 1.

(** [e] is the first edge of its unordered pair of labels in [sorted]. *)
Definition first_of_pair (sorted : list edge) (e : edge) : Prop :=
  exists l1 l2,
    sorted = l1 ++ e :: l2 /\
    Forall (fun e' => ~ same_pair (labels_of e') (labels_of e)) l1.

(** A second matrix, with a missing correlation between A and B. *)
Definition example_nan_vals : list (list spec_float) :=
  [[S754_finite false 8 (-3); S754_nan; S754_finite false 3 (-3)];
   [S754_nan; S754_finite false 8 (-3); S754_finite false 7 (-3)];
   [S754_finite false 3 (-3); S754_finite false 7 (-3); S754_finite false 8 (-3)]].

Definition example_nan_store : gmap nat pyobj :=
  {[ 2%nat := ODataFrame (corr_matrix ["A"; "B"; "C"] example_nan_vals) ]}.

(** ** The part of logging exec_utils uses

    The root logger, its handlers and what they have written are process
    state: a world holds them, with the standard streams, the files written
    to, the reading of the clock and the paths that can be opened for
    appending.  [logging.disable] is not in force and nothing has
    filters. *)

Module logging.

Definition CRITICAL : Z := 50.
Definition ERROR : Z := 40.
Definition WARNING : Z := 30.
Definition INFO : Z := 20.
Definition DEBUG : Z := 10.
Definition NOTSET : Z := 0.

(** A level as the caller gives it ([HDLR_LEVEL]): an int or a name. *)
Inductive level_arg : Type :=
| LevelInt (n : Z)
| LevelName (s : string).

Definition _nameToLevel : list (string * Z) :=
  [("CRITICAL", CRITICAL); ("FATAL", CRITICAL); ("ERROR", ERROR);
   ("WARN", WARNING); ("WARNING", WARNING); ("INFO", INFO);
   ("DEBUG", DEBUG); ("NOTSET", NOTSET)].

Fixpoint name_level (table : list (string * Z)) (s : string) : option Z :=
  match table with
  | [] => None
  | (n, l) :: t => if String.eqb n s then Some l else name_level t s
  end.

(** [_checkLevel]: an int is taken as it is, a name must be known. *)
Definition _checkLevel (level : level_arg) : result Z :=
  match level with
  | LevelInt n => Ok n
  | LevelName s =>
      match name_level _nameToLevel s with
      | Some l => Ok l
      | None => Raise ValueError
      end
  end.

(** A format string, cut into its fields. *)
Inductive field : Type :=
| Asctime
| Levelname
| Message
| Text (s : string).

Inductive stream : Type :=
| Stderr
| FileStream (path : string).

Record Handler : Type := mk_Handler {
  h_stream : stream;
  h_formatter : list field;
  h_level : Z
}.

Record Logger : Type := mk_Logger {
  l_level : Z;
  l_handlers : list Handler
}.

Record LogRecord : Type := mk_LogRecord {
  created : Z;
  levelno : Z;
  levelname : string;
  message : string
}.

End logging.

Record world : Type := mk_world {
  root : logging.Logger;
  stderr : list string;
  stdout : list string;
  files : gmap string (list string);
  clock : Z;
  can_open : string -> bool
}.

(** Steps that read and change the world, and may raise. *)
Definition io (A : Type) : Type := world -> result A * world.

Definition io_ret {A : Type} (a : A) : io A := fun w => (Ok a, w).

Definition io_bind {A B : Type} (m : io A) (k : A -> io B) : io B :=
  fun w =>
    match m w with
    | (Ok a, w') => k a w'
    | (Raise e, w') => (Raise e, w')
    end.

Declare Scope io_scope.
Delimit Scope io_scope with io.
Notation "x <- m ;; k" := (io_bind m (fun x => k))
  (at level 100, m at next level, right associativity) : io_scope.

Definition io_lift {A : Type} (r : result A) : io A := fun w => (r, w).

(** The one logger the module handles: [logging.getLogger()]. *)
Inductive logger_ref : Type := root_logger.

Definition set_root (l : logging.Logger) : io unit :=
  fun w =>
    (Ok tt,
     mk_world l (stderr w) (stdout w) (files w) (clock w) (can_open w)).

Definition get_root : io logging.Logger := fun w => (Ok (root w), w).

(** [print(msg)]. *)
Definition print (msg : string) : io unit :=
  fun w =>
    (Ok tt, mk_world (root w) (stderr w) (stdout w ++ [msg]) (files w)
                     (clock w) (can_open w)).

(** [time.time()]. *)
Definition time_time : io Z := fun w => (Ok (clock w), w).

(** [open(path, 'a')]: opening a file for appending creates it when it is
    not there, and raises OSError when the path cannot be opened (an empty
    path, a directory, a missing directory, no permission). *)
Definition open_append (path : string) : io unit :=
  fun w =>
    if can_open w path
    then (Ok tt,
          mk_world (root w) (stderr w) (stdout w)
                   (<[path := default [] (files w !! path)]> (files w))
                   (clock w) (can_open w))
    else (Raise OSError, w).

(** One line written to a stream. *)
Definition write_line (s : logging.stream) (line : string) (w : world)
  : world :=
  match s with
  | logging.Stderr =>
      mk_world (root w) (stderr w ++ [line]) (stdout w) (files w) (clock w)
               (can_open w)
  | logging.FileStream path =>
      mk_world (root w) (stderr w) (stdout w)
               (<[path := default [] (files w !! path) ++ [line]]> (files w))
               (clock w) (can_open w)
  end.

(** ** exec_utils.py *)

(** ['%(asctime)s - %(levelname)s - %(message)s']. *)
Definition get_logger_formatter : list logging.field :=
  [logging.Asctime; logging.Text " - "; logging.Levelname;
   logging.Text " - "; logging.Message].

Module exec_utils.

Section Clock.

(** How a reading of the clock prints in [%(asctime)s], and how the
    difference of two readings prints under [:.2f]: both are text renderings
    of floats and stay parameters. *)
Variable asctime : Z -> string.
Variable seconds_2f : Z -> Z -> string.

Definition format (fmt : list logging.field) (r : logging.LogRecord)
  : string :=
  String.concat ""
    (map (fun f =>
            match f with
            | logging.Asctime => asctime (logging.created r)
            | logging.Levelname => logging.levelname r
            | logging.Message => logging.message r
            | logging.Text s => s
            end) fmt).

(** [Logger.callHandlers]: every handler whose level the record reaches
    writes the formatted record. *)
Fixpoint callHandlers (hs : list logging.Handler) (r : logging.LogRecord)
  (w : world) : world :=
  match hs with
  | [] => w
  | h :: t =>
      let w' :=
        if logging.h_level h <=? logging.levelno r
        then write_line (logging.h_stream h)
                        (format (logging.h_formatter h) r) w
        else w in
      callHandlers t r w'
  end.

(** [logger.info(msg)] on the root logger. *)
Definition Logger_info (self : logger_ref) (msg : string) : io unit :=
  fun w =>
    if logging.l_level (root w) <=? logging.INFO
    then (Ok tt,
          callHandlers (logging.l_handlers (root w))
            (logging.mk_LogRecord (clock w) logging.INFO "INFO" msg) w)
    else (Ok tt, w).

Definition Logger_addHandler (self : logger_ref) (h : logging.Handler)
  : io unit :=
  (l <- get_root ;;
   set_root (logging.mk_Logger (logging.l_level l)
                               (logging.l_handlers l ++ [h])))%io.

(** [logger.handlers = hs]. *)
Definition Logger_set_handlers (self : logger_ref)
  (hs : list logging.Handler) : io unit :=
  (l <- get_root ;;
   set_root (logging.mk_Logger (logging.l_level l) hs))%io.

Definition Logger_setLevel (self : logger_ref) (level : logging.level_arg)
  : io unit :=
  (lvl <- io_lift (logging._checkLevel level) ;;
   l <- get_root ;;
   set_root (logging.mk_Logger lvl (logging.l_handlers l)))%io.

(** [logging.StreamHandler()]: on stderr, no level, the default format. *)
Definition StreamHandler : logging.Handler :=
  logging.mk_Handler logging.Stderr [logging.Message] logging.NOTSET.

(** [logging.FileHandler(path)]: the file is opened at once, and the
    handler is not made when that fails. *)
Definition FileHandler (path : string) : io logging.Handler :=
  (_ <- open_append path ;;
   io_ret (logging.mk_Handler (logging.FileStream path) [logging.Message]
                              logging.NOTSET))%io.

(** A handler is the caller's own until it is added: [setFormatter] and
    [setLevel] give the handler as updated. *)
Definition Handler_setFormatter (h : logging.Handler)
  (fmt : list logging.field) : logging.Handler :=
  logging.mk_Handler (logging.h_stream h) fmt (logging.h_level h).

Definition Handler_setLevel (h : logging.Handler) (level : logging.level_arg)
  : io logging.Handler :=
  (lvl <- io_lift (logging._checkLevel level) ;;
   io_ret (logging.mk_Handler (logging.h_stream h) (logging.h_formatter h)
                              lvl))%io.

Definition get_logger (stream_hdlr_level file_hdlr_level : logging.level_arg)
  (out_file : option string) : io logger_ref :=
  (let logger := root_logger in
   let formatter := get_logger_formatter in
   _ <- Logger_set_handlers logger [] ;;
   _ <- Logger_setLevel logger (logging.LevelInt logging.DEBUG) ;;
   let handler := StreamHandler in
   let handler := Handler_setFormatter handler formatter in
   handler <- Handler_setLevel handler stream_hdlr_level ;;
   _ <- Logger_addHandler logger handler ;;
   _ <- match out_file with
        | Some path =>
            fh <- FileHandler path ;;
            let fh := Handler_setFormatter fh formatter in
            fh <- Handler_setLevel fh file_hdlr_level ;;
            Logger_addHandler logger fh
        | None => io_ret tt
        end ;;
   _ <- Logger_info logger "logger set up" ;;
   io_ret logger)%io.

(** [with timer(name, logger): body].  The generator runs to its [yield],
    the body runs, and the generator is resumed; an exception of the body is
    thrown into the generator at the [yield], where nothing catches it. *)
Definition timer {A : Type} (name : string) (logger : option logger_ref)
  (body : io A) : io A :=
  (t0 <- time_time ;;
   let msg := ("[" ++ name ++ "] start")%string in
   _ <- match logger with
        | None => print msg
        | Some l => Logger_info l msg
        end ;;
   a <- body ;;
   t1 <- time_time ;;
   let msg :=
     ("[" ++ name ++ "] done in " ++ seconds_2f t1 t0 ++ " s")%string in
   _ <- match logger with
        | None => print msg
        | Some l => Logger_info l msg
        end ;;
   io_ret a)%io.

(** The world after the timer has said [msg]. *)
Definition say (logger : option logger_ref) (msg : string) : io unit :=
  match logger with
  | None => print msg
  | Some l => Logger_info l msg
  end.

End Clock.

End exec_utils.

(** A world and two renderings, for the examples: a root logger as Python
    starts it (WARNING, no handlers), nothing written yet, and every path
    but the empty one can be opened. *)
Definition example_can_open (path : string) : bool :=
  negb (String.eqb path "").

Definition example_world : world :=
  mk_world (logging.mk_Logger logging.WARNING []) [] [] ∅ 0 example_can_open.

Definition example_asctime (t : Z) : string := "2021-03-04 05:06:07,000".

Definition example_seconds_2f (t1 t0 : Z) : string := "0.00".

(** The line a handler writes for an INFO record. *)
Definition info_line (asctime : Z -> string) (t : Z) (msg : string) : string :=
  (asctime t ++ " - INFO - " ++ msg)%string.

(** A line, when the level lets INFO records through. *)
Definition if_info (level : Z) (line : string) : list string :=
  if level <=? logging.INFO then [line] else [].

(** * Properties of the interval grouper *)

Section IntervalGrouper.

Variable ragged_arrays : bool.

Lemma length_diff arr : length (np.diff arr) = pred (length arr).
Proof.
  induction arr as [|a [|b t] IH]; simpl in *; auto.
Qed.

Lemma bounds_from_increasing (l : list Z) (i : Z) :
  let bs := map fst (List.filter (fun '(_i, _diff) => negb (_diff =? 1))
                                 (enumerate_from i l)) in
  StronglySorted Z.lt bs /\ Forall (fun b => i <= b < i + len l) bs.
Proof.
  revert i. induction l as [|x t IH]; intros i; simpl.
  - split; constructor.
  - destruct (IH (i + 1)) as [Hs Hf]. unfold len in *.
    assert (Hf' : Forall (fun b => i < b < i + Z.of_nat (length (x :: t)))
                    (map fst (List.filter (fun '(_i, _diff) => negb (_diff =? 1))
                                (enumerate_from (i + 1) t)))).
    { eapply List.Forall_impl; [|exact Hf]. simpl. intros b Hb.
      rewrite Nat2Z.inj_succ. lia. }
    destruct (negb (x =? 1)); simpl.
    + split.
      * constructor; [exact Hs|]. eapply List.Forall_impl; [|exact Hf']. simpl. lia.
      * constructor; [simpl; lia|]. eapply List.Forall_impl; [|exact Hf']. simpl. lia.
    + split; [exact Hs|]. eapply List.Forall_impl; [|exact Hf']. simpl. lia.
Qed.

Lemma bounds_of_increasing arr :
  StronglySorted Z.lt (bounds_of arr) /\
  Forall (fun b => 0 <= b < len arr - 1) (bounds_of arr).
Proof.
  destruct (bounds_from_increasing (np.diff arr) 0) as [Hs Hf].
  split; [exact Hs|].
  eapply List.Forall_impl; [|exact Hf]. simpl. intros b.
  unfold len. rewrite length_diff. lia.
Qed.

(** The index pairs the function builds, and their dtype. *)
Lemma intervals_rows arr :
  math_utils.get_consecutive_num_intervals ragged_arrays arr true =
  Ok (Intervals
        (np.mk_ndarray2
           (match bounds_of arr with [] => np.float64 | _ => np.int64 end)
           (combine (map (fun x => x + 1) (-1 :: bounds_of arr))
                    (bounds_of arr ++ [len arr - 1])))).
Proof.
  unfold math_utils.get_consecutive_num_intervals. fold (bounds_of arr).
  set (bs := bounds_of arr).
  assert (Hitems : np.items (np.of_list bs) = bs) by (destruct bs; reflexivity).
  unfold np.vstack_T, np.concatenate, np.add_int, np.but_last, np.from_1.
  cbn [map np.items np.dt np.of_int concat fold_right rbind app].
  rewrite Hitems.
  replace (bs ++ [len arr - 1] ++ []) with (bs ++ [len arr - 1])
    by (now rewrite app_nil_r).
  replace (removelast (-1 :: bs ++ [len arr - 1])) with (-1 :: bs)
    by (change (-1 :: bs ++ [len arr - 1]) with ((-1 :: bs) ++ [len arr - 1]);
        now rewrite removelast_last).
  cbn [tl].
  replace (Nat.eqb _ _) with true.
  2:{ symmetry. apply Nat.eqb_eq.
      rewrite length_map, length_app. simpl. lia. }
  cbn. do 2 f_equal. destruct bs; reflexivity.
Qed.

Lemma rows_tile (bs : list Z) (p last : Z) :
  StronglySorted Z.lt (p :: bs) -> Forall (fun b => b < last) (p :: bs) ->
  tiles last (p + 1)
        (combine (map (fun x => x + 1) (p :: bs)) (bs ++ [last])).
Proof.
  revert p. induction bs as [|b t IH]; intros p Hs Hf.
  - simpl. inversion Hf; subst. constructor; [lia|constructor].
  - inversion Hs as [|? ? Hs' Hlt]; subst. inversion Hf as [|? ? Hp Hf']; subst.
    inversion Hlt; subst. inversion Hf'; subst.
    change (combine (map (fun x => x + 1) (p :: b :: t)) ((b :: t) ++ [last]))
      with ((p + 1, b) ::
            combine (map (fun x => x + 1) (b :: t)) (t ++ [last])).
    constructor; [lia|]. apply IH; assumption.
Qed.

Lemma tiles_range hi lo l :
  tiles hi lo l ->
  lo <= hi + 1 /\ Forall (fun p => lo <= fst p <= snd p /\ snd p <= hi) l.
Proof.
  induction 1 as [|lo e l He Ht [IHlo IHf]].
  - split; [lia|constructor].
  - split; [lia|]. constructor; [simpl; lia|].
    eapply List.Forall_impl; [|exact IHf]. simpl. lia.
Qed.

Lemma tiles_cover hi lo l k :
  tiles hi lo l -> lo <= k <= hi ->
  length (List.filter (covers k) l) = 1%nat.
Proof.
  induction 1 as [|lo e l He Ht IH]; intros Hk; [lia|].
  simpl. unfold covers at 1. simpl.
  destruct (Z_le_gt_dec k e) as [Hle|Hgt].
  - replace ((lo <=? k) && (k <=? e)) with true
      by (symmetry; apply andb_true_iff; split; apply Z.leb_le; lia).
    simpl. f_equal.
    destruct (tiles_range _ _ _ Ht) as [_ Hf].
    clear -Hf Hle. induction Hf as [|p l Hp Hf IH]; [reflexivity|].
    simpl. unfold covers at 1.
    replace (fst p <=? k) with false by (symmetry; apply Z.leb_gt; lia).
    simpl. exact IH.
  - replace (k <=? e) with false by (symmetry; apply Z.leb_gt; lia).
    rewrite andb_false_r. apply IH. lia.
Qed.

Lemma tiles_sorted hi lo l :
  tiles hi lo l ->
  StronglySorted ascending l /\ ForallOrdPairs disjoint l.
Proof.
  induction 1 as [|lo e l He Ht [IHs IHd]].
  - split; constructor.
  - destruct (tiles_range _ _ _ Ht) as [_ Hf].
    split; constructor; try assumption.
    + eapply List.Forall_impl; [|exact Hf]. unfold ascending. simpl. lia.
    + eapply List.Forall_impl; [|exact Hf]. unfold disjoint. simpl. lia.
Qed.

Lemma tiles_partitions n l : tiles (n - 1) 0 l -> partitions n l.
Proof.
  intros Ht. destruct (tiles_range _ _ _ Ht) as [_ Hf].
  destruct (tiles_sorted _ _ _ Ht) as [Hs Hd].
  split; try assumption.
  intros k Hk. eapply tiles_cover; [exact Ht|lia].
Qed.

Lemma steps_by_one_diff arr :
  steps_by_one arr -> Forall (fun d => d = 1) (np.diff arr).
Proof.
  induction arr as [|a [|b t] IH]; intros H; simpl; try constructor.
  - rewrite (H 0%nat a b eq_refl eq_refl).
    replace (a + 1 - a) with 1 by lia. reflexivity.
  - apply IH. intros i x y Hx Hy. exact (H (S i) x y Hx Hy).
Qed.

Lemma no_bounds_when_ones (l : list Z) (i : Z) :
  Forall (fun d => d = 1) l ->
  List.filter (fun '(_i, _diff) => negb (_diff =? 1)) (enumerate_from i l) = [].
Proof.
  intros H. revert i. induction H as [|d l Hd _ IH]; intros i; simpl; auto.
  subst d. simpl. apply IH.
Qed.

Lemma bounds_of_single_run arr : steps_by_one arr -> bounds_of arr = [].
Proof.
  intros H. unfold bounds_of, enumerate.
  now rewrite (no_bounds_when_ones _ 0 (steps_by_one_diff _ H)).
Qed.

Lemma built_rows_partition (arr : list Z) :
  1 <= len arr ->
  partitions (len arr)
    (combine (map (fun x => x + 1) (-1 :: bounds_of arr))
             (bounds_of arr ++ [len arr - 1])).
Proof.
  intros Hn. apply tiles_partitions.
  destruct (bounds_of_increasing arr) as [Hs Hf].
  change 0 with (-1 + 1).
  apply rows_tile.
  - constructor; [exact Hs|].
    eapply List.Forall_impl; [|exact Hf]. simpl. lia.
  - constructor; [lia|].
    eapply List.Forall_impl; [|exact Hf]. simpl. lia.
Qed.

(** C1. For every integer sequence of length N >= 1, the index pairs returned
    with [ret_idx=True] partition [[0, N-1]]: every pair is a non-empty
    inclusive range inside [[0, N-1]], the pairs are pairwise disjoint, every
    index of [[0, N-1]] lies in exactly one pair, and the pairs ascend. *)
Theorem intervals_partition (arr : list Z) :
  1 <= len arr ->
  exists d l,
    math_utils.get_consecutive_num_intervals ragged_arrays arr true =
      Ok (Intervals (np.mk_ndarray2 d l)) /\
    partitions (len arr) l.
Proof.
  intros Hn. rewrite intervals_rows. eexists _, _. split; [reflexivity|].
  now apply built_rows_partition.
Qed.

(** C4, as amended. For every integer sequence of length N >= 1 in which each
    element is its predecessor plus one, the function returns with
    [ret_idx=True] exactly one pair, [(0, N-1)] (in a float64 array, since
    the list of boundaries is empty). *)
Theorem single_run_interval (arr : list Z) :
  1 <= len arr -> steps_by_one arr ->
  math_utils.get_consecutive_num_intervals ragged_arrays arr true =
    Ok (Intervals (np.mk_ndarray2 np.float64 [(0, len arr - 1)])).
Proof.
  intros _ H. rewrite intervals_rows, (bounds_of_single_run _ H). reflexivity.
Qed.

(** C8. The example of the docstring,
    [[2,3,4,5,12,13,14,15,16,17,20]].  With [ret_idx=True] the pairs are
    [[0,3],[4,9],[10,10]] under every NumPy.  With [ret_idx=False] the three
    runs have lengths 4, 6 and 1: [np.array] returns them, as the docstring
    shows, only up to NumPy 1.23, and raises ValueError from NumPy 1.24
    on. *)
Theorem docstring_example :
  let data := [2; 3; 4; 5; 12; 13; 14; 15; 16; 17; 20] in
  math_utils.get_consecutive_num_intervals ragged_arrays data true =
    Ok (Intervals (np.mk_ndarray2 np.int64 [(0, 3); (4, 9); (10, 10)])) /\
  math_utils.get_consecutive_num_intervals true data false =
    Ok (Groups [[2; 3; 4; 5]; [12; 13; 14; 15; 16; 17]; [20]]) /\
  math_utils.get_consecutive_num_intervals false data false =
    Raise ValueError.
Proof. repeat split; reflexivity. Qed.

(** C3. On the empty sequence the function does not return empty outputs:
    with [ret_idx=True] it returns the one pair [(0, -1)], and with
    [ret_idx=False] it raises. *)
Theorem empty_input_not_special_cased :
  math_utils.get_consecutive_num_intervals ragged_arrays [] true =
    Ok (Intervals (np.mk_ndarray2 np.float64 [(0, -1)])) /\
  math_utils.get_consecutive_num_intervals ragged_arrays [] false =
    Raise TypeError /\
  data_proc_utils.get_consecutive_num_intervals ragged_arrays [] true =
    Ok (Intervals (np.mk_ndarray2 np.float64 [(0, -1)])) /\
  data_proc_utils.get_consecutive_num_intervals ragged_arrays [] false =
    Raise TypeError.
Proof. repeat split; reflexivity. Qed.

(** With [ret_idx=False] the function raises on every sequence that is one
    single run: its one pair comes out of a float64 array and cannot index
    [arr]. *)
Lemma single_run_groups_raise (arr : list Z) :
  steps_by_one arr ->
  math_utils.get_consecutive_num_intervals ragged_arrays arr false =
    Raise TypeError.
Proof.
  intros H. unfold math_utils.get_consecutive_num_intervals.
  fold (bounds_of arr). rewrite (bounds_of_single_run _ H). reflexivity.
Qed.

Lemma list_getitem_in_range (arr : list Z) (i : Z) :
  0 <= i <= len arr - 1 ->
  exists v, list_getitem arr np.int64 i = Ok v /\
            nth_error arr (Z.to_nat i) = Some v.
Proof.
  intros Hi. unfold list_getitem, len in *.
  replace (i <? 0) with false by (symmetry; apply Z.ltb_ge; lia).
  replace (0 <=? i) with true by (symmetry; apply Z.leb_le; lia).
  replace (i <? Z.of_nat (length arr)) with true
    by (symmetry; apply Z.ltb_lt; lia).
  cbn [andb].
  destruct (nth_error arr (Z.to_nat i)) as [v|] eqn:E; [eauto|].
  apply nth_error_None in E. lia.
Qed.

(** C7. On the single run [[1, 2, 3]] the two output forms disagree: the
    index form is [[(0, 2)]], which expands to [[[1, 2, 3]]], and the value
    form raises instead of returning it. *)
Theorem single_run_forms_disagree :
  math_utils.get_consecutive_num_intervals ragged_arrays [1; 2; 3] true =
    Ok (Intervals (np.mk_ndarray2 np.float64 [(0, 2)])) /\
  expand_intervals [1; 2; 3] [(0, 2)] = Some [[1; 2; 3]] /\
  math_utils.get_consecutive_num_intervals ragged_arrays [1; 2; 3] false =
    Raise TypeError.
Proof. repeat split; reflexivity. Qed.

(** C10. The two copies of [get_consecutive_num_intervals] return the same
    result, or raise the same exception, on every input. *)
Theorem copies_agree (arr : list Z) (ret_idx : bool) :
  math_utils.get_consecutive_num_intervals ragged_arrays arr ret_idx =
  data_proc_utils.get_consecutive_num_intervals ragged_arrays arr ret_idx.
Proof.
  unfold math_utils.get_consecutive_num_intervals,
    data_proc_utils.get_consecutive_num_intervals.
  destruct ret_idx; reflexivity.
Qed.

End IntervalGrouper.

Lemma intervals_partition_witness :
  exists d l,
    math_utils.get_consecutive_num_intervals false [4; 5; 9] true =
      Ok (Intervals (np.mk_ndarray2 d l)) /\
    partitions (len [4; 5; 9]) l.
Proof.
  apply (intervals_partition false [4; 5; 9]). vm_compute. discriminate.
Defined.

Lemma single_run_interval_witness :
  math_utils.get_consecutive_num_intervals false [7; 8; 9; 10] true =
    Ok (Intervals (np.mk_ndarray2 np.float64 [(0, len [7; 8; 9; 10] - 1)])).
Proof.
  apply (single_run_interval false [7; 8; 9; 10]).
  - vm_compute. discriminate.
  - intros [|[|[|[|i]]]] a b Ha Hb; simpl in Ha, Hb;
      try discriminate; injection Ha as <-; injection Hb as <-; reflexivity.
Defined.

(** C4, as stated, fails: [[1, 1]] is non-decreasing with no gap greater than
    one, and the function splits it into two pairs. *)
Lemma equal_neighbours_split :
  1 <= len [1; 1] /\
  non_decreasing_small_gaps [1; 1] /\
  math_utils.get_consecutive_num_intervals false [1; 1] true =
    Ok (Intervals (np.mk_ndarray2 np.int64 [(0, 0); (1, 1)])) /\
  ~ (exists d,
        math_utils.get_consecutive_num_intervals false [1; 1] true =
          Ok (Intervals (np.mk_ndarray2 d [(0, len [1; 1] - 1)]))).
Proof.
  split; [vm_compute; discriminate|]. split; [|split].
  - intros [|[|[|i]]] a b Ha Hb; simpl in Ha, Hb; try discriminate.
    injection Ha as <-; injection Hb as <-. lia.
  - reflexivity.
  - intros [d Hd]. vm_compute in Hd. discriminate.
Qed.

(** * The pandas steps on a correlation matrix *)

Section ListFacts.

Context {A B C D : Type}.

Lemma combine_map_both (f : A -> C) (g : B -> D) (l1 : list A) (l2 : list B) :
  combine (map f l1) (map g l2) =
  map (fun '(a, b) => (f a, g b)) (combine l1 l2).
Proof.
  revert l2. induction l1 as [|a l1 IH]; intros [|b l2]; simpl; auto.
  now rewrite IH.
Qed.

Lemma combine_map_r (g : B -> D) (l1 : list A) (l2 : list B) :
  combine l1 (map g l2) = map (fun '(a, b) => (a, g b)) (combine l1 l2).
Proof.
  revert l2. induction l1 as [|a l1 IH]; intros [|b l2]; simpl; auto.
  now rewrite IH.
Qed.

Lemma flat_map_map (f : A -> B) (g : B -> list C) (l : list A) :
  flat_map g (map f l) = flat_map (fun a => g (f a)) l.
Proof. induction l as [|a l IH]; simpl; auto. now rewrite IH. Qed.

Lemma map_flat_map (f : A -> list B) (g : B -> C) (l : list A) :
  map g (flat_map f l) = flat_map (fun a => map g (f a)) l.
Proof.
  induction l as [|a l IH]; simpl; auto. now rewrite map_app, IH.
Qed.

Lemma filter_map_swap (f : A -> B) (p : B -> bool) (l : list A) :
  List.filter p (map f l) = map f (List.filter (fun a => p (f a)) l).
Proof.
  induction l as [|a l IH]; simpl; auto.
  destruct (p (f a)); simpl; now rewrite IH.
Qed.

Lemma comprehension_map (f : A -> B) (g : B -> result C) (h : A -> C)
  (l : list A) :
  (forall a, In a l -> g (f a) = Ok (h a)) ->
  comprehension g (map f l) = Ok (map h l).
Proof.
  induction l as [|a l IH]; intros H; simpl; auto.
  rewrite (H a (or_introl eq_refl)). simpl.
  rewrite IH by (intros; apply H; now right). reflexivity.
Qed.

End ListFacts.

Section PandasSteps.

Variable new_stack : bool.
Variable quicksort :
  bool -> list (list pyval * spec_float) -> list (list pyval * spec_float).
Variable py_str : list pyval -> string.

Hypothesis quicksort_perm :
  forall ascending l, Permutation (quicksort ascending l) l.

Lemma has_duplicates_In (l : list (list pyval)) :
  pd.has_duplicates l = true -> ~ List.NoDup l.
Proof.
  induction l as [|x t IH]; [discriminate|]. cbn [pd.has_duplicates].
  intros H Hnd. apply List.NoDup_cons_iff in Hnd. destruct Hnd as [Hx Ht].
  apply orb_true_iff in H. destruct H as [H|H]; [|now apply IH].
  apply existsb_exists in H. destruct H as (y & Hy & E).
  apply bool_decide_eq_true in E. now subst y.
Qed.

Lemma NoDup_fst_combine {A B : Type} (a : list A) (b : list B) :
  List.NoDup a -> List.NoDup (map fst (combine a b)).
Proof.
  revert b. induction a as [|x t IH]; intros [|y b] H; cbn [combine map];
    try constructor.
  - apply List.NoDup_cons_iff in H. intros Hin. apply (proj1 H).
    apply in_map_iff in Hin. destruct Hin as ([x' y'] & E & Hin).
    cbn in E. subst x'. exact (in_combine_l _ _ _ _ Hin).
  - apply IH. now apply List.NoDup_cons_iff in H.
Qed.

(** Distinct labels make distinct row labels: the check of pandas 2.1 and
    later passes. *)
Lemma corr_matrix_no_duplicates labels vals :
  List.NoDup labels ->
  pd.has_duplicates (map fst (pd.rows (corr_matrix labels vals))) = false.
Proof.
  intros Hnd. apply not_true_is_false. intros H.
  apply has_duplicates_In in H. apply H. clear H.
  unfold corr_matrix. cbn [pd.rows].
  apply NoDup_fst_combine.
  apply Finite.Injective_map_NoDup; [|exact Hnd].
  intros a b E. now injection E.
Qed.

Lemma unstack_corr_matrix labels vals :
  List.NoDup labels ->
  pd.unstack new_stack (corr_matrix labels vals) =
  Ok (pd.mk_Series [PNone; PNone] PNone
        (map (fun e => (fst (series_item e), PFloat (snd (series_item e))))
             (all_edges labels vals))).
Proof.
  intros Hnd. unfold pd.unstack.
  rewrite (corr_matrix_no_duplicates labels vals Hnd), andb_false_r.
  unfold corr_matrix, all_edges. cbn [pd.index_names pd.columns
    pd.columns_name pd.rows]. do 2 f_equal.
  rewrite length_map.
  rewrite (combine_map_r PStr (seq 0 (length labels)) labels).
  rewrite flat_map_map, map_flat_map.
  apply flat_map_ext. intros [j c].
  rewrite combine_map_both, !map_map. apply map_ext. intros [r row].
  unfold pd.cell. cbn. now rewrite (map_nth PFloat row S754_nan j).
Qed.

Lemma sort_values_edges names name ascending (E : list edge) :
  exists T,
    Permutation T E /\
    quicksort ascending (map series_item E) = map series_item T /\
    pd.sort_values quicksort
      (pd.mk_Series names name
         (map (fun e => (fst (series_item e), PFloat (snd (series_item e)))) E))
      ascending =
    Ok (pd.mk_Series names name
          (map (fun e => (fst (series_item e), PFloat (snd (series_item e))))
               T)).
Proof.
  destruct (Permutation_map_inv series_item _
              (quicksort_perm ascending (map series_item E)))
    as (T & HT & HP).
  exists T. split; [now apply Permutation_sym|]. split; [exact HT|].
  unfold pd.sort_values. cbn [pd.s_items pd.s_names pd.s_name].
  rewrite (comprehension_map _ _ series_item).
  2:{ intros [[c r] x] _. reflexivity. }
  cbn [rbind]. rewrite HT, map_map. do 2 f_equal.
  apply map_ext. intros [[c r] x]. reflexivity.
Qed.

Lemma reset_index_to_frame (T : list edge) :
  pd.reset_index (pd.to_frame (edge_series T)) false =
  Ok (long_frame (number_from 0 T)).
Proof.
  unfold pd.reset_index, pd.to_frame, edge_series, long_frame, number_from.
  cbn [pd.rows pd.index_names pd.columns pd.columns_name pd.s_items
       pd.s_names pd.s_name].
  cbn [pd.level_labels length seq combine map].
  match goal with
  | |- context [existsb ?f ?l] => change (existsb f l) with false
  end.
  cbn [app]. unfold pd.range_index, numbered_rows.
  rewrite !length_map, !map_map, combine_map_both. do 2 f_equal.
  apply map_ext. intros [k [[c r] x]]. reflexivity.
Qed.

Lemma query_ne_long_frame (l : list (nat * edge)) :
  pd.query_ne (long_frame l) "level_0" "level_1" =
  Ok (long_frame (List.filter (fun p => is_pair (snd p)) l)).
Proof.
  unfold pd.query_ne, long_frame.
  cbn [pd.columns pd.rows pd.index_names pd.columns_name].
  change (pd.position (PStr "level_0") _) with (Some 0%nat).
  change (pd.position (PStr "level_1") _) with (Some 1%nat).
  unfold numbered_rows. rewrite filter_map_swap. do 3 f_equal.
  apply filter_ext. intros [k [[c r] x]]. reflexivity.
Qed.

Lemma getitem_columns_long_frame (l : list (nat * edge)) :
  pd.getitem_columns (long_frame l) [PStr "level_0"; PStr "level_1"] =
  Ok (pd.mk_DataFrame [PNone] [PStr "level_0"; PStr "level_1"] PNone
        (map (fun '(k, (c, r, _)) => ([PInt (Z.of_nat k)], [PStr c; PStr r]))
             l)).
Proof.
  unfold pd.getitem_columns, long_frame.
  cbn [pd.columns pd.rows pd.index_names pd.columns_name comprehension].
  change (pd.position (PStr "level_0") _) with (Some 0%nat).
  change (pd.position (PStr "level_1") _) with (Some 1%nat).
  cbn [rbind]. unfold numbered_rows. rewrite map_map. do 2 f_equal.
  apply map_ext. intros [k [[c r] x]]. reflexivity.
Qed.

Lemma apply_sorted_labels (l : list (nat * edge)) :
  pd.apply_sorted
    (pd.mk_DataFrame [PNone] [PStr "level_0"; PStr "level_1"] PNone
       (map (fun '(k, (c, r, _)) => ([PInt (Z.of_nat k)], [PStr c; PStr r]))
            l)) =
  Ok (pd.mk_Series [PNone] PNone
        (map (fun p => ([PInt (Z.of_nat (fst p))], sorted_labels (snd p))) l)).
Proof.
  unfold pd.apply_sorted. cbn [pd.rows pd.index_names].
  rewrite (comprehension_map _ _
             (fun p => ([PInt (Z.of_nat (fst p))], sorted_labels (snd p)))).
  - reflexivity.
  - intros [k [[c r] x]] _. cbn. destruct (String.ltb r c); reflexivity.
Qed.

Lemma map_fst_duplicated_from seen items :
  map fst (pd.duplicated_from seen items) = map fst items.
Proof.
  revert seen. induction items as [|[i k] t IH]; intros seen; simpl; auto.
  now rewrite IH.
Qed.

Lemma mask_keeps_first seen (l : list (nat * edge)) :
  map snd
    (List.filter fst
       (combine
          (map snd
             (map (fun '(i, b) => (i, negb b))
                (pd.duplicated_from seen
                   (map (fun '(i, l) => (i, py_str l))
                      (map (fun p => ([PInt (Z.of_nat (fst p))],
                                      sorted_labels (snd p))) l)))))
          (numbered_rows l))) =
  numbered_rows (first_of_key (fun p => pair_key py_str (snd p)) seen l).
Proof.
  revert seen. induction l as [|[k e] t IH]; intros seen; [reflexivity|].
  cbn [map pd.duplicated_from fst snd combine numbered_rows List.filter
       first_of_key].
  fold (pair_key py_str e).
  destruct (existsb (String.eqb (pair_key py_str e)) seen);
    cbn [negb map snd]; rewrite IH; reflexivity.
Qed.

Lemma getitem_mask_long_frame (l : list (nat * edge)) :
  pd.getitem_mask (long_frame l)
    (pd.invert
       (pd.duplicated
          (pd.astype_str py_str
             (pd.mk_Series [PNone] PNone
                (map (fun p => ([PInt (Z.of_nat (fst p))],
                                sorted_labels (snd p))) l))))) =
  Ok (long_frame (first_of_key (fun p => pair_key py_str (snd p)) [] l)).
Proof.
  unfold pd.getitem_mask, pd.invert, pd.duplicated, pd.astype_str, long_frame.
  cbn [pd.s_items pd.s_names pd.s_name pd.rows pd.index_names pd.columns
       pd.columns_name].
  rewrite bool_decide_eq_true_2.
  - cbn [rbind]. now rewrite mask_keeps_first.
  - rewrite map_map.
    rewrite (map_ext (fun x => fst (let '(i, b) := x in (i, negb b))) fst)
      by (now intros [i b]).
    rewrite map_fst_duplicated_from. unfold numbered_rows.
    rewrite !map_map. apply map_ext. now intros [k e].
Qed.

Lemma finish_long_frame col_name_1 col_name_2 (l : list (nat * edge)) :
  exists df,
    pd.set_columns (long_frame l) [col_name_1; col_name_2; PStr "corr"] =
      Ok df /\
    pd.reset_index df true = Ok (edge_table col_name_1 col_name_2 (map snd l)).
Proof.
  eexists. split; [reflexivity|].
  unfold pd.reset_index, edge_table, long_frame, numbered_rows, pd.range_index.
  cbn [pd.rows pd.columns pd.columns_name].
  rewrite !length_map, !map_map. do 3 f_equal.
  apply map_ext. now intros [k e].
Qed.

Lemma kept_edges_numbered (key : edge -> string) (p : edge -> bool) i seen
  (T : list edge) :
  map snd
    (first_of_key (fun q => key (snd q)) seen
       (List.filter (fun q => p (snd q)) (number_from i T))) =
  first_of_key key seen (List.filter p T).
Proof.
  unfold number_from. revert i seen.
  induction T as [|e T IH]; intros i seen; [reflexivity|].
  cbn [length seq combine List.filter snd].
  destruct (p e); [|apply IH].
  cbn [first_of_key snd]. destruct (existsb _ seen); cbn [map snd];
    now rewrite IH.
Qed.

End PandasSteps.

(** * Running [unstack_corr_df] in a store *)

Section Store.

Lemma fresh_lookup_None (h : store) : h !! fresh (dom h) = None.
Proof. apply not_elem_of_dom, is_fresh. Qed.

Lemma fresh_ne (h : store) l o : h !! l = Some o -> fresh (dom h) <> l.
Proof. intros H <-. rewrite fresh_lookup_None in H. discriminate. Qed.

Lemma bind_ok {A B : Type} (m : py A) (k : A -> py B) h a h' :
  m h = (Ok a, h') -> bind m k h = k a h'.
Proof. intros H. unfold bind. now rewrite H. Qed.

Lemma get_frame_ok h l df :
  h !! l = Some (ODataFrame df) -> get_frame l h = (Ok df, h).
Proof. intros H. unfold get_frame. now rewrite H. Qed.

Lemma get_series_ok h l s :
  h !! l = Some (OSeries s) -> get_series l h = (Ok s, h).
Proof. intros H. unfold get_series. now rewrite H. Qed.

Lemma subseteq_overwrite (h0 h : store) l o :
  h0 ⊆ h -> h0 !! l = None -> h0 ⊆ <[l := o]> h.
Proof. intros H Hl. now apply insert_subseteq_r. Qed.

Lemma subseteq_fresh (h0 h : store) o :
  h0 ⊆ h -> h0 ⊆ <[fresh (dom h) := o]> h /\ h0 !! fresh (dom h) = None.
Proof.
  intros H.
  assert (Hn : h0 !! fresh (dom h) = None).
  { destruct (h0 !! fresh (dom h)) as [x|] eqn:E; [|reflexivity].
    pose proof (lookup_weaken _ _ _ _ E H) as Hw.
    pose proof (fresh_lookup_None h) as Hf. congruence. }
  split; [now apply subseteq_overwrite|exact Hn].
Qed.

(** Rules for [keeps]. *)
Lemma keeps_bind h0 {A B : Type} (m : py A) (k : A -> py B) Q R :
  keeps h0 m Q -> (forall a, Q a -> keeps h0 (k a) R) ->
  keeps h0 (bind m k) R.
Proof.
  intros Hm Hk h Hh. unfold bind. specialize (Hm h Hh).
  destruct (m h) as [[a|e] h']; [|exact Hm].
  destruct Hm as [Hh' Ha]. exact (Hk a Ha h' Hh').
Qed.

Lemma keeps_ret h0 {A : Type} (a : A) (Q : A -> Prop) :
  Q a -> keeps h0 (ret a) Q.
Proof. intros Ha h Hh. now split. Qed.

Lemma keeps_lift h0 {A : Type} (r : result A) :
  keeps h0 (lift r) (fun _ => True).
Proof. intros h Hh. unfold lift. destruct r; auto. Qed.

Lemma keeps_get_frame h0 l : keeps h0 (get_frame l) (fun _ => True).
Proof.
  intros h Hh. unfold get_frame. destruct (h !! l) as [[df|s]|]; auto.
Qed.

Lemma keeps_get_series h0 l : keeps h0 (get_series l) (fun _ => True).
Proof.
  intros h Hh. unfold get_series. destruct (h !! l) as [[df|s]|]; auto.
Qed.

Lemma keeps_alloc h0 o : keeps h0 (alloc o) (fun l => h0 !! l = None).
Proof. intros h Hh. unfold alloc. now apply subseteq_fresh. Qed.

Lemma keeps_put h0 l o :
  h0 !! l = None -> keeps h0 (put l o) (fun _ => True).
Proof.
  intros Hl h Hh. unfold put. split; [now apply subseteq_overwrite|exact I].
Qed.

End Store.

Section UnstackRun.

Import data_proc_utils.

Variable new_stack : bool.
Variable quicksort :
  bool -> list (list pyval * spec_float) -> list (list pyval * spec_float).
Variable py_str : list pyval -> string.

(** Every step returns a new object or updates an object made by an earlier
    step: the objects of the caller stay as they are. *)
Lemma unstack_corr_df_keeps h0 corr ascending col_name_1 col_name_2 :
  keeps h0
    (unstack_corr_df new_stack quicksort py_str corr ascending col_name_1
       col_name_2)
    (fun _ => True).
Proof.
  unfold unstack_corr_df, DataFrame_unstack, Series_sort_values,
    Series_to_frame, DataFrame_reset_index_inplace, DataFrame_query_ne,
    DataFrame_getitem_columns, DataFrame_apply_sorted, DataFrame_getitem_mask,
    DataFrame_set_columns.
  repeat first
    [ apply keeps_ret; exact I
    | apply keeps_alloc
    | apply keeps_lift
    | apply keeps_get_frame
    | apply keeps_get_series
    | apply keeps_put; assumption
    | eapply keeps_bind; [|intros ? ?] ].
Qed.

Hypothesis quicksort_perm :
  forall ascending l, Permutation (quicksort ascending l) l.

(** On a correlation matrix the function returns, and the frame it returns
    holds the edges that survive the two filters, in sorted order. *)
Lemma unstack_corr_df_run (h : store) corr labels vals ascending
  col_name_1 col_name_2 :
  h !! corr = Some (ODataFrame (corr_matrix labels vals)) ->
  List.NoDup labels ->
  exists T r h',
    Permutation T (all_edges labels vals) /\
    quicksort ascending (map series_item (all_edges labels vals)) =
      map series_item T /\
    unstack_corr_df new_stack quicksort py_str corr ascending col_name_1
      col_name_2 h = (Ok r, h') /\
    h' !! r =
      Some (ODataFrame
              (edge_table col_name_1 col_name_2 (kept_edges py_str T))).
Proof.
  intros Hcorr Hnd.
  destruct (sort_values_edges quicksort quicksort_perm [PNone; PNone] PNone
              ascending (all_edges labels vals)) as (T & HP & HT & Hsort).
  destruct (finish_long_frame col_name_1 col_name_2
              (first_of_key (fun p => pair_key py_str (snd p)) []
                 (List.filter (fun p => is_pair (snd p)) (number_from 0 T))))
    as (df9 & Hset & Hreset).
  rewrite kept_edges_numbered in Hreset. fold (kept_edges py_str T) in Hreset.
  exists T. do 2 eexists. split; [exact HP|]. split; [exact HT|].
  unfold unstack_corr_df.
  (* corr_uns = corr.unstack() *)
  erewrite bind_ok.
  2:{ unfold DataFrame_unstack.
      erewrite bind_ok by (apply get_frame_ok; exact Hcorr).
      rewrite (unstack_corr_matrix new_stack _ _ Hnd). reflexivity. }
  set (l1 := fresh (dom h)). set (h1 := <[l1 := _]> h).
  (* corr_uns_sorted = corr_uns.sort_values(ascending=ascending) *)
  erewrite bind_ok.
  2:{ unfold Series_sort_values.
      erewrite bind_ok by (apply get_series_ok, lookup_insert_eq).
      fold (edge_series (all_edges labels vals)). unfold edge_series.
      rewrite Hsort. reflexivity. }
  set (l2 := fresh (dom h1)). set (h2 := <[l2 := _]> h1).
  (* df_corr = corr_uns_sorted.to_frame() *)
  erewrite bind_ok.
  2:{ unfold Series_to_frame.
      erewrite bind_ok by (apply get_series_ok, lookup_insert_eq).
      reflexivity. }
  set (l3 := fresh (dom h2)). set (h3 := <[l3 := _]> h2).
  (* df_corr.reset_index(drop=False, inplace=True) *)
  erewrite bind_ok.
  2:{ unfold DataFrame_reset_index_inplace.
      erewrite bind_ok by (apply get_frame_ok, lookup_insert_eq).
      fold (edge_series T). rewrite reset_index_to_frame. reflexivity. }
  set (h4 := <[l3 := _]> h3).
  (* df_corr = df_corr.query('level_0 != level_1') *)
  erewrite bind_ok.
  2:{ unfold DataFrame_query_ne.
      erewrite bind_ok by (apply get_frame_ok, lookup_insert_eq).
      rewrite query_ne_long_frame. reflexivity. }
  set (l5 := fresh (dom h4)). set (h5 := <[l5 := _]> h4).
  (* df_corr_cols = df_corr[['level_0', 'level_1']] *)
  erewrite bind_ok.
  2:{ unfold DataFrame_getitem_columns.
      erewrite bind_ok by (apply get_frame_ok, lookup_insert_eq).
      rewrite getitem_columns_long_frame. reflexivity. }
  set (l6 := fresh (dom h5)). set (h6 := <[l6 := _]> h5).
  (* df_corr_cols.apply(sorted, 1) *)
  erewrite bind_ok.
  2:{ unfold DataFrame_apply_sorted.
      erewrite bind_ok by (apply get_frame_ok, lookup_insert_eq).
      rewrite apply_sorted_labels. reflexivity. }
  (* df_corr = df_corr[dup_mask] *)
  cbv zeta.
  erewrite bind_ok.
  2:{ unfold DataFrame_getitem_mask.
      erewrite bind_ok.
      2:{ apply get_frame_ok. unfold h6.
          rewrite lookup_insert_ne
            by (eapply fresh_ne; unfold h5; apply lookup_insert_eq).
          unfold h5. apply lookup_insert_eq. }
      rewrite getitem_mask_long_frame. reflexivity. }
  set (l7 := fresh (dom h6)). set (h7 := <[l7 := _]> h6).
  (* df_corr.columns = [col_name_1, col_name_2, 'corr'] *)
  erewrite bind_ok.
  2:{ unfold DataFrame_set_columns.
      erewrite bind_ok by (apply get_frame_ok, lookup_insert_eq).
      rewrite Hset. reflexivity. }
  (* df_corr.reset_index(drop=True, inplace=True) *)
  erewrite bind_ok.
  2:{ unfold DataFrame_reset_index_inplace.
      erewrite bind_ok by (apply get_frame_ok, lookup_insert_eq).
      rewrite Hreset. reflexivity. }
  split; [reflexivity|]. apply lookup_insert_eq.
Qed.

End UnstackRun.

(** * Which edges survive *)

Section FirstOfKey.

Context {A : Type} (key : A -> string).

Lemma first_of_key_In seen l x : In x (first_of_key key seen l) -> In x l.
Proof.
  revert seen. induction l as [|y t IH]; intros seen; simpl; [tauto|].
  destruct (existsb _ seen); simpl; intros H.
  - right. eapply IH, H.
  - destruct H as [H|H]; [now left|right; eapply IH, H].
Qed.

Lemma first_of_key_Forall (P : A -> Prop) seen l :
  Forall P l -> Forall P (first_of_key key seen l).
Proof.
  intros H. apply List.Forall_forall. intros x Hx.
  apply (proj1 (List.Forall_forall P l) H), (first_of_key_In seen), Hx.
Qed.

Lemma first_of_key_sorted (R : A -> A -> Prop) seen l :
  StronglySorted R l -> StronglySorted R (first_of_key key seen l).
Proof.
  intros H. revert seen. induction H as [|x l Hl IH Hx]; intros seen; simpl.
  - constructor.
  - destruct (existsb _ seen); [apply IH|].
    constructor; [apply IH|now apply first_of_key_Forall].
Qed.

Lemma seen_spec (k : string) seen :
  existsb (String.eqb k) seen = true <-> In k seen.
Proof.
  rewrite existsb_exists. split.
  - intros (y & Hy & E). apply String.eqb_eq in E. now subst.
  - intros H. exists k. split; [exact H|apply String.eqb_refl].
Qed.

Lemma first_of_key_fresh seen l x :
  In x (first_of_key key seen l) -> ~ In (key x) seen.
Proof.
  revert seen. induction l as [|y t IH]; intros seen; simpl; [tauto|].
  destruct (existsb _ seen) eqn:E; simpl; intros H.
  - intros Hs. apply (IH _ H). now right.
  - destruct H as [<-|H].
    + intros Hs. apply seen_spec in Hs. congruence.
    + intros Hs. apply (IH _ H). now right.
Qed.

Lemma first_of_key_NoDup seen l : List.NoDup (map key (first_of_key key seen l)).
Proof.
  revert seen. induction l as [|y t IH]; intros seen; simpl; [constructor|].
  destruct (existsb _ seen); [apply IH|].
  simpl. constructor; [|apply IH].
  intros H. apply in_map_iff in H. destruct H as (x & E & Hx).
  apply first_of_key_fresh in Hx. apply Hx. left. now symmetry.
Qed.

Lemma first_of_key_covers seen l x :
  In x l -> In (key x) seen \/ In (key x) (map key (first_of_key key seen l)).
Proof.
  revert seen. induction l as [|y t IH]; intros seen; simpl; [tauto|].
  intros [<-|H].
  - destruct (existsb _ seen) eqn:E.
    + left. now apply seen_spec.
    + right. now left.
  - destruct (IH (key y :: seen) H) as [[E|Hs]|Hk].
    + destruct (existsb _ seen) eqn:E'.
      * left. apply seen_spec. now rewrite <- E.
      * right. left. exact E.
    + now left.
    + right. destruct (existsb _ seen); [exact Hk|now right].
Qed.

(** Distinct positions hold distinct keys. *)
Lemma first_of_key_pairs seen l :
  ForallOrdPairs (fun x y => key x <> key y) (first_of_key key seen l).
Proof.
  pose proof (first_of_key_NoDup seen l) as H.
  induction (first_of_key key seen l) as [|x t IH]; [constructor|].
  simpl in H. apply List.NoDup_cons_iff in H. destruct H as [Hx Ht].
  constructor; [|now apply IH].
  apply List.Forall_forall. intros y Hy E. apply Hx. rewrite E. now apply in_map.
Qed.

End FirstOfKey.

Section Pairs.

Lemma length_pairs_of l :
  (2 * length (pairs_of l) = length l * (length l - 1))%nat.
Proof.
  induction l as [|a t IH]; [reflexivity|].
  cbn [pairs_of length]. rewrite length_app, length_map. nia.
Qed.

Lemma in_pairs_of l a b : In (a, b) (pairs_of l) -> In a l /\ In b l.
Proof.
  induction l as [|x t IH]; simpl; [tauto|].
  rewrite in_app_iff, in_map_iff. intros [(y & E & Hy)|H].
  - injection E as <- <-. auto.
  - destruct (IH H). auto.
Qed.

Lemma pairs_of_distinct l a b :
  List.NoDup l -> In (a, b) (pairs_of l) -> a <> b.
Proof.
  induction 1 as [|x t Hx Ht IH]; simpl; [tauto|].
  rewrite in_app_iff, in_map_iff. intros [(y & E & Hy)|H].
  - injection E as <- <-. intros ->. contradiction.
  - now apply IH.
Qed.

Lemma pairs_of_total l a b :
  In a l -> In b l -> a <> b ->
  In (a, b) (pairs_of l) \/ In (b, a) (pairs_of l).
Proof.
  induction l as [|x t IH]; simpl; [tauto|].
  rewrite !in_app_iff, !in_map_iff. intros [->|Ha] [->|Hb] Hne.
  - contradiction.
  - left. left. eauto.
  - right. left. eauto.
  - destruct (IH Ha Hb Hne); auto.
Qed.

Lemma ltb_total a b : a <> b -> String.ltb a b = negb (String.ltb b a).
Proof.
  intros Hne. unfold String.ltb. rewrite (String.compare_antisym b a).
  destruct (String.compare a b) eqn:E; try reflexivity.
  apply String.compare_eq_iff in E. contradiction.
Qed.

Variable py_str : list pyval -> string.

Lemma label_key_sym a b : label_key py_str (a, b) = label_key py_str (b, a).
Proof.
  unfold label_key. cbn [fst snd].
  destruct (string_dec a b) as [->|Hne]; [reflexivity|].
  rewrite (ltb_total a b Hne). destruct (String.ltb b a); reflexivity.
Qed.

Lemma same_pair_key p q :
  same_pair p q -> label_key py_str p = label_key py_str q.
Proof.
  destruct p as [a b], q as [c d]. unfold same_pair. cbn [fst snd].
  intros [[-> ->]|[-> ->]]; [reflexivity|apply label_key_sym].
Qed.

Lemma pair_key_label_key e : pair_key py_str e = label_key py_str (labels_of e).
Proof. destruct e as [[c r] x]. reflexivity. Qed.

Hypothesis py_str_inj :
  forall l1 l2 : list string,
    py_str (map PStr l1) = py_str (map PStr l2) -> l1 = l2.

Lemma label_key_inj p q :
  label_key py_str p = label_key py_str q -> same_pair p q.
Proof.
  destruct p as [a b], q as [c d]. unfold label_key, same_pair. cbn [fst snd].
  intros H.
  destruct (String.ltb b a), (String.ltb d c);
    (apply (py_str_inj [_; _] [_; _]) in H); injection H as -> ->; auto.
Qed.

Lemma pairs_of_keys_NoDup l :
  List.NoDup l -> List.NoDup (map (label_key py_str) (pairs_of l)).
Proof.
  induction 1 as [|x t Hx Ht IH]; [constructor|].
  cbn [pairs_of]. rewrite map_app, map_map. apply List.NoDup_app.
  3: intros k H1 H2.
  2: exact IH.
  - clear IH Hx. induction Ht as [|y t Hy Ht IH]; [constructor|].
    simpl. constructor; [|exact IH].
    rewrite in_map_iff. intros (z & E & Hz).
    apply label_key_inj in E. destruct E as [[_ E]|[E1 E2]];
      cbn [fst snd] in *; subst; contradiction.
  - apply in_map_iff in H1. destruct H1 as (y & <- & Hy).
    apply in_map_iff in H2. destruct H2 as ([c d] & E & Hcd).
    apply in_pairs_of in Hcd. destruct Hcd as [Hc Hd].
    apply label_key_inj in E. destruct E as [[E _]|[_ E]];
      cbn [fst snd] in *; subst; contradiction.
Qed.

End Pairs.

(** * The edges of a correlation matrix *)

Section EdgesOfMatrix.

Lemma in_combine_seq {A : Type} (l : list A) i j (x : A) :
  In (j, x) (combine (seq i (length l)) l) <->
  (i <= j)%nat /\ nth_error l (j - i) = Some x.
Proof.
  revert i. induction l as [|y t IH]; intros i; cbn [length seq combine].
  - split; [intros []|intros [_ H]]. now destruct (j - i)%nat.
  - cbn [In]. rewrite IH. split.
    + intros [E|[Hle H]].
      * injection E as <- <-. rewrite Nat.sub_diag. auto.
      * split; [lia|]. replace (j - i)%nat with (S (j - S i)) by lia. exact H.
    + intros [Hle H]. destruct (Nat.eq_dec i j) as [<-|Hne].
      * rewrite Nat.sub_diag in H. injection H as <-. now left.
      * right. split; [lia|].
        replace (j - i)%nat with (S (j - S i)) in H by lia. exact H.
Qed.

Lemma in_combine_nth_error {A B : Type} (l1 : list A) (l2 : list B) a b :
  In (a, b) (combine l1 l2) <->
  exists i, nth_error l1 i = Some a /\ nth_error l2 i = Some b.
Proof.
  revert l2. induction l1 as [|x t IH]; intros [|y u]; cbn [combine In].
  - split; [tauto|]. intros ([|i] & H & _); discriminate.
  - split; [tauto|]. intros ([|i] & H & _); discriminate.
  - split; [tauto|]. intros ([|i] & _ & H); discriminate.
  - rewrite IH. split.
    + intros [E|(i & H1 & H2)].
      * injection E as <- <-. now exists 0%nat.
      * now exists (S i).
    + intros ([|i] & H1 & H2); cbn in H1, H2.
      * left. congruence.
      * right. eauto.
Qed.

(** An edge is a cell of the matrix: its labels stand at positions [j] (the
    column) and [i] (the row), and its value is the entry there. *)
Lemma in_all_edges labels vals c r x :
  In (c, r, x) (all_edges labels vals) <->
  exists j i row,
    nth_error labels j = Some c /\ nth_error labels i = Some r /\
    nth_error vals i = Some row /\ x = nth j row S754_nan.
Proof.
  unfold all_edges. rewrite in_flat_map. split.
  - intros ([j c'] & Hjc & H). apply in_combine_seq in Hjc.
    destruct Hjc as [_ Hj]. rewrite Nat.sub_0_r in Hj.
    apply in_map_iff in H. destruct H as ([r' row] & E & Hr).
    injection E as <- <- <-.
    apply in_combine_nth_error in Hr. destruct Hr as (i & Hi & Hrow).
    exists j, i, row. auto.
  - intros (j & i & row & Hj & Hi & Hrow & ->).
    exists (j, c). split.
    + apply in_combine_seq. rewrite Nat.sub_0_r. split; [lia|exact Hj].
    + apply in_map_iff. exists (r, row). split; [reflexivity|].
      apply in_combine_nth_error. eauto.
Qed.

Lemma all_edges_labels labels vals c r x :
  In (c, r, x) (all_edges labels vals) -> In c labels /\ In r labels.
Proof.
  rewrite in_all_edges. intros (j & i & row & Hj & Hi & _).
  split; eapply nth_error_In; eassumption.
Qed.

Lemma all_edges_total labels vals c r :
  length vals = length labels -> In c labels -> In r labels ->
  exists x, In (c, r, x) (all_edges labels vals).
Proof.
  intros Hlen Hc Hr.
  apply In_nth_error in Hc. destruct Hc as [j Hj].
  apply In_nth_error in Hr. destruct Hr as [i Hi].
  destruct (nth_error vals i) as [row|] eqn:Hrow.
  - exists (nth j row S754_nan). apply in_all_edges. exists j, i, row. auto.
  - apply nth_error_None in Hrow.
    assert (i < length labels)%nat by (apply nth_error_Some; congruence).
    lia.
Qed.

Lemma all_edges_no_nan labels vals c r x :
  square (length labels) vals -> no_nan vals ->
  In (c, r, x) (all_edges labels vals) -> is_nan x = false.
Proof.
  intros [_ Hsq] Hnan. rewrite in_all_edges.
  intros (j & i & row & Hj & Hi & Hrow & ->).
  apply nth_error_In in Hrow.
  pose proof (proj1 (List.Forall_forall _ _) Hsq row Hrow) as Hlen.
  pose proof (proj1 (List.Forall_forall _ _) Hnan row Hrow) as Hrown.
  apply (proj1 (List.Forall_forall _ _) Hrown).
  apply nth_In. rewrite Hlen. apply nth_error_Some. congruence.
Qed.

Lemma position_nth labels j c :
  List.NoDup labels -> nth_error labels j = Some c ->
  pd.position (PStr c) (map PStr labels) = Some j.
Proof.
  intros Hnd. revert j. induction Hnd as [|a t Ha Ht IH]; intros j Hj.
  - now destruct j.
  - cbn [map pd.position]. destruct j as [|j]; cbn in Hj.
    + injection Hj as ->. now rewrite bool_decide_eq_true_2.
    + rewrite bool_decide_eq_false_2.
      * now rewrite (IH j Hj).
      * intros E. injection E as ->. apply Ha. eapply nth_error_In, Hj.
Qed.

Lemma find_row labels (vals : list (list spec_float)) i r row :
  List.NoDup labels -> nth_error labels i = Some r ->
  nth_error vals i = Some row ->
  List.find (fun '(i, _) => bool_decide (i = [PStr r]))
    (combine (map (fun a => [PStr a]) labels) (map (map PFloat) vals)) =
  Some ([PStr r], map PFloat row).
Proof.
  intros Hnd. revert i vals.
  induction Hnd as [|a t Ha Ht IH]; intros i vals Hi Hrow.
  - now destruct i.
  - destruct vals as [|v vals]; [now destruct i|].
    cbn [map combine List.find]. destruct i as [|i]; cbn in Hi, Hrow.
    + injection Hi as ->. injection Hrow as ->.
      now rewrite bool_decide_eq_true_2.
    + rewrite bool_decide_eq_false_2.
      * exact (IH i vals Hi Hrow).
      * intros E. injection E as ->. apply Ha. eapply nth_error_In, Hi.
Qed.

(** The value of an edge is [corr[c][r]], and [corr[r][c]] when the matrix is
    symmetric. *)
Lemma all_edges_getitem2 labels vals c r x :
  List.NoDup labels -> square (length labels) vals ->
  In (c, r, x) (all_edges labels vals) ->
  getitem2 (corr_matrix labels vals) c r = Some (PFloat x) /\
  (symmetric vals ->
   getitem2 (corr_matrix labels vals) r c = Some (PFloat x)).
Proof.
  intros Hnd [Hlen _]. rewrite in_all_edges.
  intros (j & i & row & Hj & Hi & Hrow & ->).
  unfold getitem2, corr_matrix. cbn [pd.columns pd.rows].
  split.
  - rewrite (position_nth _ _ _ Hnd Hj), (find_row _ _ _ _ _ Hnd Hi Hrow).
    unfold pd.cell. now rewrite (map_nth PFloat row S754_nan j).
  - intros Hsym.
    destruct (nth_error vals j) as [row'|] eqn:Hrow'.
    + rewrite (position_nth _ _ _ Hnd Hi), (find_row _ _ _ _ _ Hnd Hj Hrow').
      unfold pd.cell. rewrite (map_nth PFloat row' S754_nan i).
      do 2 f_equal. pose proof (Hsym j i) as E. unfold entry in E.
      now rewrite (nth_error_nth _ _ _ Hrow), (nth_error_nth _ _ _ Hrow') in E.
    + apply nth_error_None in Hrow'.
      assert (j < length labels)%nat by (apply nth_error_Some; congruence).
      lia.
Qed.

End EdgesOfMatrix.

(** * The reference instances meet their contracts *)

Section FloatOrder.

Ltac cmp_cases :=
  repeat match goal with
  | |- context [Z.compare ?a ?b] => destruct (Z.compare_spec a b)
  | |- context [PosDef.Pos.compare_cont Eq ?a ?b] =>
      change (PosDef.Pos.compare_cont Eq a b) with (Pos.compare a b);
      destruct (Pos.compare_spec a b)
  end.

Lemma SFleb_trans x y z :
  SFleb x y = true -> SFleb y z = true -> SFleb x z = true.
Proof.
  unfold SFleb, SFcompare.
  destruct x as [sx|sx| |sx mx ex], y as [sy|sy| |sy my ey],
    z as [sz|sz| |sz mz ez];
    try destruct sx; try destruct sy; try destruct sz;
    try reflexivity; try discriminate;
    cmp_cases; cbn [CompOpp]; intros Hxy Hyz;
    try reflexivity; try discriminate; lia.
Qed.

Lemma SFleb_total x y :
  is_nan x = false -> is_nan y = false ->
  SFleb x y = true \/ SFleb y x = true.
Proof.
  unfold SFleb, SFcompare, is_nan.
  destruct x as [sx|sx| |sx mx ex], y as [sy|sy| |sy my ey];
    try destruct sx; try destruct sy; intros Hx Hy;
    try discriminate; auto;
    cmp_cases; cbn [CompOpp]; auto; lia.
Qed.

Lemma na_last_total ascending x y :
  na_last ascending x y = true \/ na_last ascending y x = true.
Proof.
  unfold na_last.
  destruct (is_nan x) eqn:Hx, (is_nan y) eqn:Hy; auto.
  destruct ascending; [|apply or_comm]; now apply SFleb_total.
Qed.

Lemma na_last_trans ascending x y z :
  na_last ascending x y = true -> na_last ascending y z = true ->
  na_last ascending x z = true.
Proof.
  unfold na_last.
  destruct (is_nan z); [reflexivity|].
  destruct (is_nan y); [discriminate|].
  destruct (is_nan x); [discriminate|].
  destruct ascending; intros H1 H2; eapply SFleb_trans; eassumption.
Qed.

End FloatOrder.

Section InsertionSort.

Context {A : Type} (le : A -> A -> bool).

Lemma insert_by_perm x l : Permutation (insert_by le x l) (x :: l).
Proof.
  induction l as [|y t IH]; simpl; [reflexivity|].
  destruct (le x y); [reflexivity|].
  rewrite IH. apply perm_swap.
Qed.

Lemma sort_by_perm l : Permutation (sort_by le l) l.
Proof.
  induction l as [|x t IH]; simpl; [reflexivity|].
  rewrite insert_by_perm. now apply perm_skip.
Qed.

Hypothesis le_total : forall x y, le x y = true \/ le y x = true.
Hypothesis le_trans :
  forall x y z, le x y = true -> le y z = true -> le x z = true.

Lemma insert_by_sorted x l :
  StronglySorted (fun a b => le a b = true) l ->
  StronglySorted (fun a b => le a b = true) (insert_by le x l).
Proof.
  induction 1 as [|y t Ht IH Hy]; simpl.
  - constructor; constructor.
  - destruct (le x y) eqn:E.
    + constructor; [now constructor|].
      constructor; [exact E|].
      eapply List.Forall_impl; [|exact Hy]. intros z. now apply le_trans.
    + constructor; [exact IH|].
      apply List.Forall_forall. intros z Hz.
      apply (Permutation_in _ (insert_by_perm x t)) in Hz.
      destruct Hz as [<-|Hz].
      * destruct (le_total x y); congruence.
      * exact (proj1 (List.Forall_forall _ _) Hy z Hz).
Qed.

Lemma sort_by_sorted l :
  StronglySorted (fun a b => le a b = true) (sort_by le l).
Proof.
  induction l as [|x t IH]; simpl; [constructor|now apply insert_by_sorted].
Qed.

End InsertionSort.

Lemma insertion_sort_perm ascending l :
  Permutation (insertion_sort ascending l) l.
Proof. apply sort_by_perm. Qed.

Lemma insertion_sort_sorted ascending l :
  StronglySorted (fun p q => na_last ascending (snd p) (snd q) = true)
                 (insertion_sort ascending l).
Proof.
  apply (sort_by_sorted (fun p q => na_last ascending (snd p) (snd q))).
  - intros x y. apply na_last_total.
  - intros x y z. apply na_last_trans.
Qed.

Lemma render_string_inj s1 s2 (t1 t2 : string) :
  (render_string s1 ++ t1)%string = (render_string s2 ++ t2)%string ->
  s1 = s2 /\ t1 = t2.
Proof.
  revert s2. induction s1 as [|c s1 IH]; intros [|d s2];
    intros H; simpl in H; try discriminate.
  - injection H as H. auto.
  - injection H as Hc H. destruct (IH _ H) as [-> ->]. subst. auto.
Qed.

Lemma render_list_inj (l1 l2 : list string) :
  render_list (map PStr l1) = render_list (map PStr l2) -> l1 = l2.
Proof.
  revert l2. induction l1 as [|a l1 IH]; intros [|b l2]; cbn; intros H.
  - reflexivity.
  - destruct b; discriminate.
  - destruct a; discriminate.
  - apply render_string_inj in H. destruct H as [-> H]. f_equal. now apply IH.
Qed.

(** * Properties of the unstacker *)

Section UnstackProperties.

Import data_proc_utils.

Variable new_stack : bool.
Variable quicksort :
  bool -> list (list pyval * spec_float) -> list (list pyval * spec_float).
Variable py_str : list pyval -> string.

Hypothesis quicksort_perm :
  forall ascending l, Permutation (quicksort ascending l) l.
Hypothesis quicksort_sorted :
  forall ascending l,
    StronglySorted (fun p q => na_last ascending (snd p) (snd q) = true)
                   (quicksort ascending l).
Hypothesis py_str_inj :
  forall l1 l2 : list string,
    py_str (map PStr l1) = py_str (map PStr l2) -> l1 = l2.

Lemma kept_edges_In (T : list edge) e :
  In e (kept_edges py_str T) -> In e T /\ is_pair e = true.
Proof.
  unfold kept_edges. intros H. apply first_of_key_In in H.
  now apply filter_In in H.
Qed.

Lemma ForallOrdPairs_impl {A : Type} (R S : A -> A -> Prop) l :
  (forall x y, R x y -> S x y) -> ForallOrdPairs R l -> ForallOrdPairs S l.
Proof.
  intros HRS. induction 1 as [|x l Hx Hl IH]; constructor; [|exact IH].
  eapply List.Forall_impl; [|exact Hx]. apply HRS.
Qed.

Lemma kept_edges_distinct (T : list edge) :
  Forall (fun e => fst (labels_of e) <> snd (labels_of e))
         (kept_edges py_str T) /\
  ForallOrdPairs (fun e1 e2 => ~ same_pair (labels_of e1) (labels_of e2))
                 (kept_edges py_str T).
Proof.
  split.
  - apply List.Forall_forall. intros [[c r] x] H.
    apply kept_edges_In in H. destruct H as [_ H]. cbn in *.
    apply negb_true_iff, String.eqb_neq in H. exact H.
  - unfold kept_edges.
    eapply ForallOrdPairs_impl; [|apply first_of_key_pairs].
    cbn beta. intros e1 e2 Hne Hs. apply Hne.
    rewrite !pair_key_label_key. now apply same_pair_key.
Qed.

Lemma kept_edges_count labels vals (T : list edge) :
  length vals = length labels -> List.NoDup labels ->
  Permutation T (all_edges labels vals) ->
  length (kept_edges py_str T) = length (pairs_of labels).
Proof.
  intros Hlen Hnd HP.
  rewrite <- (length_map (pair_key py_str) (kept_edges py_str T)).
  rewrite <- (length_map (label_key py_str) (pairs_of labels)).
  apply Permutation_length, Permutation.NoDup_Permutation.
  - apply first_of_key_NoDup.
  - now apply pairs_of_keys_NoDup.
  - intros k. split.
    + intros H. apply in_map_iff in H. destruct H as ([[c r] x] & <- & He).
      apply kept_edges_In in He. destruct He as [He Hpair].
      apply (Permutation_in _ HP), all_edges_labels in He.
      destruct He as [Hc Hr]. cbn in Hpair.
      apply negb_true_iff, String.eqb_neq in Hpair.
      rewrite pair_key_label_key. cbn [labels_of fst].
      destruct (pairs_of_total labels c r Hc Hr Hpair) as [H|H].
      * apply in_map_iff. now exists (c, r).
      * apply in_map_iff. exists (r, c). split; [apply label_key_sym|exact H].
    + intros H. apply in_map_iff in H. destruct H as ([a b] & <- & Hab).
      pose proof (pairs_of_distinct _ _ _ Hnd Hab) as Hne.
      apply in_pairs_of in Hab. destruct Hab as [Ha Hb].
      destruct (all_edges_total labels vals a b Hlen Ha Hb) as [x Hx].
      apply (Permutation_in _ (Permutation_sym HP)) in Hx.
      assert (Hf : In (a, b, x) (List.filter is_pair T)).
      { apply filter_In. split; [exact Hx|]. cbn.
        now apply negb_true_iff, String.eqb_neq. }
      destruct (first_of_key_covers (pair_key py_str) [] _ _ Hf) as [[]|Hk].
      exact Hk.
Qed.

Lemma StronglySorted_map_inv {A B : Type} (f : A -> B) (R : B -> B -> Prop) l :
  StronglySorted R (map f l) -> StronglySorted (fun x y => R (f x) (f y)) l.
Proof.
  induction l as [|x t IH]; intros H; [constructor|].
  inversion H as [|? ? Ht Hx]; subst. constructor; [now apply IH|].
  apply List.Forall_forall. intros y Hy.
  apply (proj1 (List.Forall_forall _ _) Hx). now apply in_map.
Qed.

Lemma StronglySorted_filter {A : Type} (R : A -> A -> Prop) p l :
  StronglySorted R l -> StronglySorted R (List.filter p l).
Proof.
  induction 1 as [|x t Ht IH Hx]; simpl; [constructor|].
  destruct (p x); [|exact IH]. constructor; [exact IH|].
  apply List.Forall_forall. intros y Hy. apply filter_In in Hy.
  apply (proj1 (List.Forall_forall _ _) Hx), Hy.
Qed.

Lemma StronglySorted_weaken {A : Type} (R S : A -> A -> Prop) (P : A -> Prop) l :
  (forall x y, P x -> P y -> R x y -> S x y) -> Forall P l ->
  StronglySorted R l -> StronglySorted S l.
Proof.
  intros HRS HP. induction 1 as [|x t Ht IH Hx]; [constructor|].
  inversion HP as [|? ? Px Pt]; subst. constructor; [now apply IH|].
  apply List.Forall_forall. intros y Hy. apply HRS; auto.
  - exact (proj1 (List.Forall_forall _ _) Pt y Hy).
  - exact (proj1 (List.Forall_forall _ _) Hx y Hy).
Qed.

Lemma kept_edges_in_order ascending labels vals (T : list edge) :
  square (length labels) vals -> no_nan vals ->
  Permutation T (all_edges labels vals) ->
  quicksort ascending (map series_item (all_edges labels vals)) =
    map series_item T ->
  StronglySorted (in_order ascending) (kept_edges py_str T).
Proof.
  intros Hsq Hnan HP HT.
  pose proof (quicksort_sorted ascending
                (map series_item (all_edges labels vals))) as Hs.
  rewrite HT in Hs. apply StronglySorted_map_inv in Hs.
  apply (StronglySorted_weaken
           (fun e1 e2 => na_last ascending (snd e1) (snd e2) = true) _
           (fun e => is_nan (snd e) = false)).
  - intros e1 e2 H1 H2. unfold na_last, in_order. rewrite H1, H2.
    now destruct ascending.
  - apply List.Forall_forall. intros [[c r] x] H.
    apply kept_edges_In in H. destruct H as [H _].
    apply (Permutation_in _ HP) in H.
    exact (all_edges_no_nan _ _ _ _ _ Hsq Hnan H).
  - unfold kept_edges. apply first_of_key_sorted, StronglySorted_filter.
    eapply StronglySorted_weaken with (P := fun _ => True); [| |exact Hs].
    + intros [[c1 r1] x1] [[c2 r2] x2] _ _ H. exact H.
    + apply List.Forall_forall. auto.
Qed.

(** C2. On a square matrix over N distinct labels the function returns a
    table of exactly N*(N-1)/2 rows; no row has two equal labels and no two
    rows stand for the same unordered pair of labels.  (Neither symmetry nor
    the absence of NaN is needed for this.) *)
Theorem unstack_row_count (h : store) corr labels vals ascending
  col_name_1 col_name_2 :
  h !! corr = Some (ODataFrame (corr_matrix labels vals)) ->
  square (length labels) vals -> List.NoDup labels ->
  exists r h' edges,
    unstack_corr_df new_stack quicksort py_str corr ascending col_name_1
      col_name_2 h = (Ok r, h') /\
    h' !! r = Some (ODataFrame (edge_table col_name_1 col_name_2 edges)) /\
    length (pd.rows (edge_table col_name_1 col_name_2 edges)) =
      (length labels * (length labels - 1) / 2)%nat /\
    Forall (fun e => fst (labels_of e) <> snd (labels_of e)) edges /\
    ForallOrdPairs (fun e1 e2 => ~ same_pair (labels_of e1) (labels_of e2))
                   edges.
Proof.
  intros Hcorr [Hlen _] Hnd.
  destruct (unstack_corr_df_run new_stack quicksort py_str quicksort_perm h
              corr labels vals ascending col_name_1 col_name_2 Hcorr Hnd)
    as (T & r & h' & HP & _ & Hrun & Hr).
  exists r, h', (kept_edges py_str T).
  split; [exact Hrun|]. split; [exact Hr|].
  split; [|apply kept_edges_distinct].
  unfold edge_table, pd.range_index. cbn [pd.rows].
  rewrite length_combine, !length_map, length_seq, Nat.min_id.
  rewrite (kept_edges_count labels vals T Hlen Hnd HP).
  pose proof (length_pairs_of labels) as H2.
  apply Nat.div_unique_exact; [discriminate|]. lia.
Qed.

(** C5. On a square matrix without NaN over distinct labels the rows of the
    returned table are non-increasing in the correlation when
    [ascending=False] and non-decreasing when [ascending=True]. *)
Theorem unstack_sorted (h : store) corr labels vals ascending
  col_name_1 col_name_2 :
  h !! corr = Some (ODataFrame (corr_matrix labels vals)) ->
  square (length labels) vals -> no_nan vals -> List.NoDup labels ->
  exists r h' edges,
    unstack_corr_df new_stack quicksort py_str corr ascending col_name_1
      col_name_2 h = (Ok r, h') /\
    h' !! r = Some (ODataFrame (edge_table col_name_1 col_name_2 edges)) /\
    StronglySorted (in_order ascending) edges.
Proof.
  intros Hcorr Hsq Hnan Hnd.
  destruct (unstack_corr_df_run new_stack quicksort py_str quicksort_perm h
              corr labels vals ascending col_name_1 col_name_2 Hcorr Hnd)
    as (T & r & h' & HP & HT & Hrun & Hr).
  exists r, h', (kept_edges py_str T).
  split; [exact Hrun|]. split; [exact Hr|].
  exact (kept_edges_in_order ascending labels vals T Hsq Hnan HP HT).
Qed.

(** C6. On a square symmetric matrix over distinct labels every row
    [(a, b, v)] of the returned table has [v = corr[a][b] = corr[b][a]]. *)
Theorem unstack_values (h : store) corr labels vals ascending
  col_name_1 col_name_2 :
  h !! corr = Some (ODataFrame (corr_matrix labels vals)) ->
  square (length labels) vals -> symmetric vals -> List.NoDup labels ->
  exists r h' edges,
    unstack_corr_df new_stack quicksort py_str corr ascending col_name_1
      col_name_2 h = (Ok r, h') /\
    h' !! r = Some (ODataFrame (edge_table col_name_1 col_name_2 edges)) /\
    Forall (from_matrix (corr_matrix labels vals)) edges.
Proof.
  intros Hcorr Hsq Hsym Hnd.
  destruct (unstack_corr_df_run new_stack quicksort py_str quicksort_perm h
              corr labels vals ascending col_name_1 col_name_2 Hcorr Hnd)
    as (T & r & h' & HP & _ & Hrun & Hr).
  exists r, h', (kept_edges py_str T).
  split; [exact Hrun|]. split; [exact Hr|].
  apply List.Forall_forall. intros [[a b] v] H.
  apply kept_edges_In in H. destruct H as [H _].
  apply (Permutation_in _ HP) in H.
  destruct (all_edges_getitem2 labels vals a b v Hnd Hsq H) as [H1 H2].
  split; [exact H1|exact (H2 Hsym)].
Qed.

(** C9. The call leaves its input as it was: whatever frame [corr] refers to
    before the call, it refers to the same frame after it, whether the call
    returned or raised. *)
Theorem unstack_input_unchanged (h : store) corr df ascending
  col_name_1 col_name_2 :
  h !! corr = Some (ODataFrame df) ->
  snd (unstack_corr_df new_stack quicksort py_str corr ascending col_name_1
         col_name_2 h)
    !! corr = Some (ODataFrame df).
Proof.
  intros Hcorr.
  pose proof (unstack_corr_df_keeps new_stack quicksort py_str h corr ascending
                col_name_1 col_name_2 h (reflexivity h)) as H.
  destruct (unstack_corr_df _ _ _ _ _ _ _ h) as [[r|e] h']; cbn [snd].
  - destruct H as [H _]. exact (lookup_weaken _ _ _ _ Hcorr H).
  - exact (lookup_weaken _ _ _ _ Hcorr H).
Qed.

End UnstackProperties.

(** The example matrix meets the hypotheses of the theorems above. *)
Lemma example_square : square (length ["A"; "B"; "C"]) example_vals.
Proof. split; [reflexivity|repeat constructor]. Qed.

Lemma example_symmetric : symmetric example_vals.
Proof.
  intros [|[|[|i]]] [|[|[|j]]]; try reflexivity;
    unfold entry; cbn; try (destruct i; reflexivity);
    try (destruct j; reflexivity).
  destruct i, j; reflexivity.
Qed.

Lemma example_no_nan : no_nan example_vals.
Proof. repeat constructor. Qed.

Lemma example_labels_distinct : List.NoDup ["A"; "B"; "C"].
Proof.
  repeat constructor; cbn; intros H;
    repeat (destruct H as [H|H]; [discriminate|]); exact H.
Qed.

Lemma unstack_row_count_witness :
  exists r h' edges,
    data_proc_utils.unstack_corr_df true insertion_sort render_list 5%nat false
      (PStr "col_1") (PStr "col_2") example_store = (Ok r, h') /\
    h' !! r =
      Some (ODataFrame (edge_table (PStr "col_1") (PStr "col_2") edges)) /\
    length (pd.rows (edge_table (PStr "col_1") (PStr "col_2") edges)) =
      (length ["A"; "B"; "C"] * (length ["A"; "B"; "C"] - 1) / 2)%nat /\
    Forall (fun e => fst (labels_of e) <> snd (labels_of e)) edges /\
    ForallOrdPairs (fun e1 e2 => ~ same_pair (labels_of e1) (labels_of e2))
                   edges.
Proof.
  apply (unstack_row_count true insertion_sort render_list insertion_sort_perm
           render_list_inj example_store 5%nat ["A"; "B"; "C"] example_vals).
  - reflexivity.
  - exact example_square.
  - exact example_labels_distinct.
Defined.

Lemma unstack_sorted_witness :
  exists r h' edges,
    data_proc_utils.unstack_corr_df true insertion_sort render_list 5%nat false
      (PStr "col_1") (PStr "col_2") example_store = (Ok r, h') /\
    h' !! r =
      Some (ODataFrame (edge_table (PStr "col_1") (PStr "col_2") edges)) /\
    StronglySorted (in_order false) edges.
Proof.
  apply (unstack_sorted true insertion_sort render_list insertion_sort_perm
           insertion_sort_sorted example_store 5%nat ["A"; "B"; "C"]
           example_vals).
  - reflexivity.
  - exact example_square.
  - exact example_no_nan.
  - exact example_labels_distinct.
Defined.

Lemma unstack_values_witness :
  exists r h' edges,
    data_proc_utils.unstack_corr_df true insertion_sort render_list 5%nat true
      (PStr "col_1") (PStr "col_2") example_store = (Ok r, h') /\
    h' !! r =
      Some (ODataFrame (edge_table (PStr "col_1") (PStr "col_2") edges)) /\
    Forall (from_matrix (corr_matrix ["A"; "B"; "C"] example_vals)) edges.
Proof.
  apply (unstack_values true insertion_sort render_list insertion_sort_perm
           example_store 5%nat ["A"; "B"; "C"] example_vals).
  - reflexivity.
  - exact example_square.
  - exact example_symmetric.
  - exact example_labels_distinct.
Defined.

Lemma unstack_input_unchanged_witness :
  snd (data_proc_utils.unstack_corr_df true insertion_sort render_list 5%nat
         false (PStr "col_1") (PStr "col_2") example_store) !! 5%nat =
  Some (ODataFrame (corr_matrix ["A"; "B"; "C"] example_vals)).
Proof.
  apply (unstack_input_unchanged true insertion_sort render_list example_store
           5%nat (corr_matrix ["A"; "B"; "C"] example_vals)).
  reflexivity.
Defined.

(** The example, run: three rows, highest correlation first. *)
Example unstack_example :
  let '(r, h') :=
    data_proc_utils.unstack_corr_df true insertion_sort render_list 5%nat false
      (PStr "col_1") (PStr "col_2") example_store in
  match r with
  | Ok l =>
      h' !! l =
      Some (ODataFrame
              (edge_table (PStr "col_1") (PStr "col_2")
                 [("B", "C", S754_finite false 7 (-3));
                  ("A", "B", S754_finite false 5 (-3));
                  ("A", "C", S754_finite false 3 (-3))]))
  | Raise _ => False
  end.
Proof. vm_compute. reflexivity. Qed.

(** * More on the interval grouper *)

Section IntervalGrouperMore.

Variable ragged_arrays : bool.

Lemma nth_error_diff arr i :
  nth_error (np.diff arr) i = diff_at arr i.
Proof.
  unfold diff_at. revert i.
  induction arr as [|a [|b t] IH]; intros i.
  - now destruct i.
  - destruct i as [|[|i]]; reflexivity.
  - destruct i as [|i]; [reflexivity|].
    change (np.diff (a :: b :: t)) with (np.wrap64 (b - a) :: np.diff (b :: t)).
    cbn [nth_error]. apply IH.
Qed.

Lemma in_enumerate_from {A : Type} (l : list A) k i (x : A) :
  In (i, x) (enumerate_from k l) <->
  k <= i /\ nth_error l (Z.to_nat (i - k)) = Some x.
Proof.
  revert k. induction l as [|y t IH]; intros k; cbn [enumerate_from In].
  - split; [tauto|]. intros [_ H]. now destruct (Z.to_nat (i - k)).
  - rewrite IH. split.
    + intros [E|[Hk H]].
      * injection E as <- <-. rewrite Z.sub_diag. split; [lia|reflexivity].
      * split; [lia|].
        replace (Z.to_nat (i - k)) with (S (Z.to_nat (i - (k + 1)))) by lia.
        exact H.
    + intros [Hk H]. destruct (Z.eq_dec i k) as [->|Hne].
      * rewrite Z.sub_diag in H. injection H as <-. now left.
      * right. split; [lia|].
        replace (Z.to_nat (i - k)) with (S (Z.to_nat (i - (k + 1)))) in H
          by lia.
        exact H.
Qed.

(** The boundaries are the positions of the differences that are not one. *)
Lemma in_bounds_of arr i :
  In i (bounds_of arr) <->
  0 <= i /\ exists d, diff_at arr (Z.to_nat i) = Some d /\ d <> 1.
Proof.
  unfold bounds_of, enumerate. rewrite in_map_iff. split.
  - intros ([i' d] & E & H). cbn in E. subst i'.
    apply filter_In in H. destruct H as [H Hd].
    apply in_enumerate_from in H. destruct H as [Hi H].
    rewrite Z.sub_0_r, nth_error_diff in H.
    split; [exact Hi|]. exists d. split; [exact H|].
    apply negb_true_iff, Z.eqb_neq in Hd. exact Hd.
  - intros (Hi & d & H & Hd). exists (i, d). split; [reflexivity|].
    apply filter_In. split.
    + apply in_enumerate_from. rewrite Z.sub_0_r, nth_error_diff. auto.
    + now apply negb_true_iff, Z.eqb_neq.
Qed.

Lemma length_bounds_from (l : list Z) k :
  length (map fst (List.filter (fun '(_i, _diff) => negb (_diff =? 1))
                               (enumerate_from k l))) =
  length (List.filter (fun d => negb (d =? 1)) l).
Proof.
  revert k. induction l as [|x t IH]; intros k; [reflexivity|].
  cbn [enumerate_from List.filter]. specialize (IH (k + 1)).
  destruct (negb (x =? 1)); cbn [map length]; now rewrite IH.
Qed.

(** X3. The number of index pairs is one more than the number of int64
    differences between neighbours that are not one, on every input; the
    pairs are int64 when there is such a difference and float64 when there
    is none. *)
Theorem intervals_count (arr : list Z) :
  exists d l,
    math_utils.get_consecutive_num_intervals ragged_arrays arr true =
      Ok (Intervals (np.mk_ndarray2 d l)) /\
    length l =
      S (length (List.filter (fun x => negb (x =? 1)) (np.diff arr))) /\
    d = match List.filter (fun x => negb (x =? 1)) (np.diff arr) with
        | [] => np.float64
        | _ :: _ => np.int64
        end.
Proof.
  rewrite (intervals_rows ragged_arrays). eexists _, _. split; [reflexivity|].
  pose proof (length_bounds_from (np.diff arr) 0) as Hlen.
  fold (enumerate (np.diff arr)) in Hlen. fold (bounds_of arr) in Hlen.
  split.
  - rewrite length_combine, length_map, length_app. cbn [length].
    rewrite <- Hlen. lia.
  - destruct (bounds_of arr), (List.filter _ (np.diff arr));
      try reflexivity; discriminate.
Qed.

(** Between two boundaries lies no boundary, and every pair but the last
    ends at a boundary. *)
Lemma rows_between_bounds (bs : list Z) (p last : Z) :
  StronglySorted Z.lt (p :: bs) -> Forall (fun b => b < last) (p :: bs) ->
  Forall (fun r => p + 1 <= fst r /\
                   (forall b, In b bs -> ~ (fst r <= b < snd r)) /\
                   (snd r = last \/ In (snd r) bs))
         (combine (map (fun x => x + 1) (p :: bs)) (bs ++ [last])).
Proof.
  revert p. induction bs as [|b t IH]; intros p Hs Hf.
  - cbn. constructor; [|constructor]. cbn [fst snd].
    split; [lia|]. split; [intros b []|now left].
  - inversion Hs as [|? ? Hs' Hlt]; subst. inversion Hf as [|? ? Hp Hf']; subst.
    inversion Hlt as [|? ? Hpb Hpt]; subst.
    change (combine (map (fun x => x + 1) (p :: b :: t)) ((b :: t) ++ [last]))
      with ((p + 1, b) ::
            combine (map (fun x => x + 1) (b :: t)) (t ++ [last])).
    constructor.
    + cbn [fst snd]. split; [lia|]. split; [|right; now left].
      intros c [<-|Hc]; [lia|].
      inversion Hs' as [|? ? _ Hbt]; subst.
      pose proof (proj1 (List.Forall_forall _ _) Hbt c Hc). lia.
    + eapply List.Forall_impl; [|exact (IH b Hs' Hf')].
      intros [s e]. cbn [fst snd]. intros (Hse & Hno & Hend).
      split; [lia|]. split.
      * intros c [<-|Hc]; [lia|now apply Hno].
      * destruct Hend; [now left|right; now right].
Qed.

Lemma built_rows_runs (arr : list Z) :
  1 <= len arr ->
  Forall (fun r =>
            (forall i, fst r <= i < snd r ->
               diff_at arr (Z.to_nat i) = Some 1) /\
            (snd r < len arr - 1 ->
               exists x, diff_at arr (Z.to_nat (snd r)) = Some x /\ x <> 1))
         (combine (map (fun x => x + 1) (-1 :: bounds_of arr))
                  (bounds_of arr ++ [len arr - 1])).
Proof.
  intros Hn.
  destruct (bounds_of_increasing arr) as [Hs Hf].
  assert (Hbetween := rows_between_bounds (bounds_of arr) (-1) (len arr - 1)).
  pose proof (part_pairs _ _ (built_rows_partition arr Hn)) as Hrange.
  apply List.Forall_forall. intros [s e] Hin. cbn [fst snd].
  pose proof (proj1 (List.Forall_forall _ _) Hrange _ Hin) as Hr.
  cbn [fst snd] in Hr.
  assert (Hb : Forall (fun r => -1 + 1 <= fst r /\
                (forall b, In b (bounds_of arr) -> ~ (fst r <= b < snd r)) /\
                (snd r = len arr - 1 \/ In (snd r) (bounds_of arr)))
             (combine (map (fun x => x + 1) (-1 :: bounds_of arr))
                      (bounds_of arr ++ [len arr - 1]))).
  { apply Hbetween.
    - constructor; [exact Hs|].
      eapply List.Forall_impl; [|exact Hf]. simpl. lia.
    - constructor; [lia|].
      eapply List.Forall_impl; [|exact Hf]. simpl. lia. }
  pose proof (proj1 (List.Forall_forall _ _) Hb _ Hin) as (_ & Hno & Hend).
  cbn [fst snd] in Hno, Hend. split.
  - intros i Hi.
    destruct (diff_at arr (Z.to_nat i)) as [x|] eqn:E.
    + destruct (Z.eq_dec x 1) as [->|Hx]; [reflexivity|].
      exfalso. apply (Hno i); [|exact Hi].
      apply in_bounds_of. split; [lia|]. eauto.
    + exfalso. rewrite <- nth_error_diff in E. apply nth_error_None in E.
      rewrite length_diff in E. unfold len in *. lia.
  - intros He. destruct Hend as [->|Hend]; [lia|].
    apply in_bounds_of in Hend. tauto.
Qed.


Lemma has_break_bounds arr : has_break arr -> bounds_of arr <> [].
Proof.
  intros (i & d & H & Hd) E.
  assert (Hin : In (Z.of_nat i) (bounds_of arr)).
  { apply in_bounds_of. split; [lia|]. rewrite Nat2Z.id. eauto. }
  rewrite E in Hin. exact Hin.
Qed.

(** X1. On every sequence that is one single run (the empty and the
    one-element sequences included) the call with [ret_idx=False] raises
    TypeError. *)
Theorem single_run_always_raises (arr : list Z) :
  steps_by_one arr ->
  math_utils.get_consecutive_num_intervals ragged_arrays arr false =
    Raise TypeError /\
  data_proc_utils.get_consecutive_num_intervals ragged_arrays arr false =
    Raise TypeError.
Proof.
  intros H. split.
  - unfold math_utils.get_consecutive_num_intervals.
    fold (bounds_of arr). rewrite (bounds_of_single_run _ H). reflexivity.
  - unfold data_proc_utils.get_consecutive_num_intervals.
    fold (bounds_of arr). rewrite (bounds_of_single_run _ H). reflexivity.
Qed.

Lemma wrap64_small z : - 2 ^ 63 <= z < 2 ^ 63 -> np.wrap64 z = z.
Proof. intros H. unfold np.wrap64. rewrite Z.mod_small; lia. Qed.

Lemma arange_cons a b : a < b -> np.int_range a b = a :: np.int_range (a + 1) b.
Proof.
  intros H. unfold np.int_range.
  replace (Z.to_nat (b - a)) with (S (Z.to_nat (b - (a + 1)))) by lia.
  cbn [seq map]. f_equal; [lia|].
  rewrite <- seq_shift, map_map. apply map_ext. intros k. lia.
Qed.

Lemma arange_nil a b : b <= a -> np.int_range a b = [].
Proof.
  intros H. unfold np.int_range.
  now replace (Z.to_nat (b - a)) with 0%nat by lia.
Qed.

Lemma arange_steps_by_one a b : steps_by_one (np.int_range a b).
Proof.
  unfold np.int_range, steps_by_one. intros i x y Hx Hy.
  rewrite nth_error_map in Hx, Hy.
  destruct (nth_error (seq 0 (Z.to_nat (b - a))) i) as [k|] eqn:Ek;
    [|discriminate].
  destruct (nth_error (seq 0 (Z.to_nat (b - a))) (S i)) as [k'|] eqn:Ek';
    [|discriminate].
  cbn in Hx, Hy. injection Hx as <-. injection Hy as <-.
  assert (Hi : (i < length (seq 0 (Z.to_nat (b - a))))%nat)
    by (apply nth_error_Some; congruence).
  assert (Hi' : (S i < length (seq 0 (Z.to_nat (b - a))))%nat)
    by (apply nth_error_Some; congruence).
  rewrite length_seq in Hi, Hi'.
  rewrite (nth_error_nth' _ 0%nat) in Ek by (now rewrite length_seq).
  rewrite (nth_error_nth' _ 0%nat) in Ek' by (now rewrite length_seq).
  rewrite seq_nth in Ek, Ek' by assumption.
  injection Ek as <-. injection Ek' as <-. lia.
Qed.

Lemma skipn_cons_nth {A : Type} (l : list A) n x :
  nth_error l n = Some x -> skipn n l = x :: skipn (S n) l.
Proof.
  revert n. induction l as [|y t IH]; intros [|n] H; try discriminate.
  - injection H as ->. reflexivity.
  - cbn in H. cbn [skipn]. rewrite (IH n H). reflexivity.
Qed.

(** A stretch of [arr] that steps by one is the range from its first to its
    last value. *)
Lemma run_is_arange (arr : list Z) n lo a :
  nth_error arr lo = Some a -> (lo + n < length arr)%nat ->
  (forall i x y, (lo <= i < lo + n)%nat ->
     nth_error arr i = Some x -> nth_error arr (S i) = Some y -> y = x + 1) ->
  firstn (S n) (skipn lo arr) = np.int_range a (a + Z.of_nat n + 1) /\
  nth_error arr (lo + n) = Some (a + Z.of_nat n).
Proof.
  revert lo a. induction n as [|n IH]; intros lo a Ha Hlen Hstep.
  - rewrite (skipn_cons_nth _ _ _ Ha). cbn [firstn].
    rewrite arange_cons by lia. rewrite arange_nil by lia.
    rewrite Nat.add_0_r, Z.add_0_r. auto.
  - destruct (nth_error arr (S lo)) as [b|] eqn:Eb.
    2:{ apply nth_error_None in Eb. lia. }
    assert (b = a + 1) as -> by (apply (Hstep lo a b); [lia|assumption..]).
    destruct (IH (S lo) (a + 1) Eb) as [IH1 IH2]; [lia| |].
    { intros i x y Hi. apply Hstep. lia. }
    rewrite (skipn_cons_nth _ _ _ Ha).
    change (firstn (S (S n)) (a :: skipn (S lo) arr))
      with (a :: firstn (S n) (skipn (S lo) arr)).
    rewrite IH1, (arange_cons a) by lia. split.
    + do 2 f_equal. lia.
    + replace (lo + S n)%nat with (S lo + n)%nat by lia. rewrite IH2.
      f_equal. lia.
Qed.

Lemma wrap64_one x y :
  - 2 ^ 63 <= x < 2 ^ 63 - 1 -> - 2 ^ 63 <= y < 2 ^ 63 - 1 ->
  np.wrap64 (y - x) = 1 -> y = x + 1.
Proof.
  unfold np.wrap64. intros Hx Hy H.
  pose proof (Z.div_mod (y - x + 2 ^ 63) (2 ^ 64) ltac:(lia)).
  pose proof (Z.mod_pos_bound (y - x + 2 ^ 63) (2 ^ 64) ltac:(lia)).
  lia.
Qed.

Lemma fits_int64_below_max x :
  - 2 ^ 63 <= x < 2 ^ 63 - 1 ->
  np.fits_int64 x = true /\ np.fits_int64 (x + 1) = true.
Proof.
  intros H. unfold np.fits_int64.
  split; apply andb_true_iff; split;
    try (apply Z.leb_le; lia); apply Z.ltb_lt; lia.
Qed.

(** Between two int64 whose distance is below 2^53, [np.arange] counts from
    the first to the second. *)
Lemma arange_int_range lo hi :
  - 2 ^ 63 <= lo < 2 ^ 63 - 1 -> - 2 ^ 63 <= hi < 2 ^ 63 - 1 ->
  0 <= hi + 1 - lo < 2 ^ 53 ->
  np.arange lo (hi + 1) = np.mk_ndarray np.int64 (np.int_range lo (hi + 1)).
Proof.
  intros Hlo Hhi Hspan. unfold np.arange, np.arange_length, np.to_float64.
  rewrite (proj1 (fits_int64_below_max lo Hlo)),
    (proj2 (fits_int64_below_max hi Hhi)).
  replace (Z.abs (hi + 1 - lo) <? 2 ^ 53) with true
    by (symmetry; apply Z.ltb_lt; lia).
  reflexivity.
Qed.

Lemma same_lengths_int64 (gs : list (list Z)) :
  np.same_lengths (map (np.mk_ndarray np.int64) gs) = equal_lengths gs /\
  np.all_int64 (map (np.mk_ndarray np.int64) gs) = true /\
  map np.items (map (np.mk_ndarray np.int64) gs) = gs.
Proof.
  split; [|split].
  - destruct gs as [|g t]; [reflexivity|].
    cbn [map np.same_lengths equal_lengths np.items].
    induction t as [|h t IH]; [reflexivity|].
    cbn [map forallb np.items]. now rewrite IH.
  - induction gs as [|g t IH]; [reflexivity|]. exact IH.
  - induction gs as [|g t IH]; [reflexivity|]. cbn. now rewrite IH.
Qed.

(** On pairs that tile the tail of [arr] from [lo], each a stretch stepping
    by one, the comprehension of the value form builds one int64 array per
    pair, the expansion of the pair, and the arrays put end to end are that
    tail. *)
Lemma expand_tiles (arr : list Z) lo l :
  tiles (len arr - 1) lo l -> 0 <= lo ->
  below_int64_max arr -> len arr < 2 ^ 53 ->
  Forall (fun r => forall i x y, fst r <= Z.of_nat i < snd r ->
            nth_error arr i = Some x -> nth_error arr (S i) = Some y ->
            y = x + 1) l ->
  exists gs,
    comprehension
      (fun '(_s, _e) =>
         (lo <- list_getitem arr np.int64 _s ;;
          hi <- list_getitem arr np.int64 _e ;;
          Ok (np.arange lo (hi + 1)))%py) l =
      Ok (map (np.mk_ndarray np.int64) gs) /\
    expand_intervals arr l = Some gs /\
    concat gs = skipn (Z.to_nat lo) arr /\
    Forall steps_by_one gs.
Proof.
  intros Ht Hlo Hmax Hshort. revert Hlo.
  induction Ht as [|lo e l He Ht IH]; intros Hlo Hsteps.
  - exists []. split; [reflexivity|]. split; [reflexivity|].
    split; [|constructor].
    cbn [concat]. symmetry. apply skipn_all2. unfold len. lia.
  - inversion Hsteps as [|? ? Hstep Hsteps']; subst. cbn [fst snd] in Hstep.
    destruct (IH ltac:(lia) Hsteps') as (gs & Hc & Hgs & Hcat & Hrun).
    destruct (list_getitem_in_range arr lo) as (a & Hga & Ea); [lia|].
    destruct (list_getitem_in_range arr e) as (z & Hgz & Ez); [lia|].
    unfold len in *.
    destruct (run_is_arange arr (Z.to_nat (e - lo)) (Z.to_nat lo) a Ea)
      as [Hslice Hlast]; [lia| |].
    { intros i x y Hi. apply Hstep. lia. }
    replace (Z.to_nat lo + Z.to_nat (e - lo))%nat with (Z.to_nat e) in Hlast
      by lia.
    assert (z = a + Z.of_nat (Z.to_nat (e - lo))) as -> by congruence.
    pose proof (proj1 (List.Forall_forall _ _) Hmax _
                  (nth_error_In _ _ Ea)) as Ha.
    pose proof (proj1 (List.Forall_forall _ _) Hmax _
                  (nth_error_In _ _ Ez)) as Hz.
    exists (np.int_range a (a + Z.of_nat (Z.to_nat (e - lo)) + 1) :: gs).
    cbn [comprehension expand_intervals]. unfold expand_pair. cbn [fst snd].
    rewrite Hga, Hgz, Ea, Ez, Hc, Hgs. cbn [rbind map].
    rewrite (arange_int_range _ _ Ha Hz) by lia.
    split; [reflexivity|]. split; [reflexivity|]. split.
    + cbn [concat]. rewrite Hcat, <- Hslice.
      replace (Z.to_nat (e + 1))
        with (S (Z.to_nat (e - lo)) + Z.to_nat lo)%nat by lia.
      rewrite <- skipn_skipn. apply firstn_skipn.
    + constructor; [apply arange_steps_by_one|exact Hrun].
Qed.

(** When the sequence splits into two runs or more (an int64 array of
    pairs), its elements are int64 below the largest and it has fewer than
    2^53 of them, the runs are the expansion of the pairs; put end to end
    they are the input; and the value form is what [np.array] makes of
    them. *)
Lemma forms_agree_when_split (arr : list Z) :
  bounds_of arr <> [] -> below_int64_max arr -> len arr < 2 ^ 53 ->
  exists l gs,
    math_utils.get_consecutive_num_intervals ragged_arrays arr true =
      Ok (Intervals (np.mk_ndarray2 np.int64 l)) /\
    expand_intervals arr l = Some gs /\
    concat gs = arr /\
    Forall steps_by_one gs /\
    math_utils.get_consecutive_num_intervals ragged_arrays arr false =
      if ragged_arrays || equal_lengths gs then Ok (Groups gs)
      else Raise ValueError.
Proof.
  intros Hb Hmax Hshort.
  assert (Hn : 1 <= len arr).
  { destruct arr as [|a t]; [now destruct Hb|]. unfold len. cbn. lia. }
  pose proof (built_rows_runs arr Hn) as Hruns.
  assert (Ht : tiles (len arr - 1) 0
                 (combine (map (fun x => x + 1) (-1 :: bounds_of arr))
                          (bounds_of arr ++ [len arr - 1]))).
  { destruct (bounds_of_increasing arr) as [Hs Hf].
    change 0 with (-1 + 1). apply rows_tile.
    - constructor; [exact Hs|].
      eapply List.Forall_impl; [|exact Hf]. simpl. lia.
    - constructor; [lia|].
      eapply List.Forall_impl; [|exact Hf]. simpl. lia. }
  pose proof (intervals_rows ragged_arrays arr) as Hrun.
  set (l := combine _ _) in Hruns, Ht, Hrun.
  replace (match bounds_of arr with [] => np.float64 | _ => np.int64 end)
    with np.int64 in Hrun by (destruct (bounds_of arr); congruence).
  destruct (expand_tiles arr 0 l Ht) as (gs & Hc & Hexp & Hcat & Hsteps);
    [lia|exact Hmax|exact Hshort| |].
  { eapply List.Forall_impl; [|exact Hruns].
    intros [s e]. cbn [fst snd]. intros [Hin _] i x y Hi Hx Hy.
    specialize (Hin (Z.of_nat i) Hi). rewrite Nat2Z.id in Hin.
    unfold diff_at in Hin. rewrite Hx, Hy in Hin. injection Hin as Hin.
    apply wrap64_one; [|  |exact Hin].
    - exact (proj1 (List.Forall_forall _ _) Hmax _ (nth_error_In _ _ Hx)).
    - exact (proj1 (List.Forall_forall _ _) Hmax _ (nth_error_In _ _ Hy)). }
  exists l, gs. split; [exact Hrun|]. split; [exact Hexp|].
  split; [exact Hcat|]. split; [exact Hsteps|].
  revert Hrun. unfold math_utils.get_consecutive_num_intervals.
  destruct (np.vstack_T _ _) as [b|e]; cbn [rbind]; [|discriminate].
  intros E. injection E as ->. cbn [np.dt2 np.rows]. rewrite Hc.
  cbn [rbind]. unfold np.array.
  destruct (same_lengths_int64 gs) as (-> & -> & ->).
  destruct (equal_lengths gs), ragged_arrays; reflexivity.
Qed.

(** X2. When some difference between neighbours is not one, on a list of
    fewer than 2^53 int64 below the largest, the index form returns int64
    pairs, and the value form hands [np.array] every pair [(s, e)] expanded
    to the integers from [arr[s]] to [arr[e]]: it returns these runs when
    they have one length or NumPy is older than 1.24, and raises ValueError
    otherwise. *)
Theorem split_forms_agree (arr : list Z) :
  has_break arr -> below_int64_max arr -> len arr < 2 ^ 53 ->
  exists l gs,
    math_utils.get_consecutive_num_intervals ragged_arrays arr true =
      Ok (Intervals (np.mk_ndarray2 np.int64 l)) /\
    expand_intervals arr l = Some gs /\
    math_utils.get_consecutive_num_intervals ragged_arrays arr false =
      if ragged_arrays || equal_lengths gs then Ok (Groups gs)
      else Raise ValueError.
Proof.
  intros H Hmax Hshort.
  destruct (forms_agree_when_split arr (has_break_bounds arr H) Hmax Hshort)
    as (l & gs & Ht & He & _ & _ & Hf).
  exists l, gs. auto.
Qed.

(** X5. When some difference between neighbours is not one, on a list of
    fewer than 2^53 int64 below the largest, the runs the value form hands
    [np.array] put end to end are the input, and each of them steps by one;
    the call returns these runs when they have one length or NumPy is older
    than 1.24, and raises ValueError otherwise. *)
Theorem groups_concat (arr : list Z) :
  has_break arr -> below_int64_max arr -> len arr < 2 ^ 53 ->
  exists gs,
    concat gs = arr /\
    Forall steps_by_one gs /\
    math_utils.get_consecutive_num_intervals ragged_arrays arr false =
      if ragged_arrays || equal_lengths gs then Ok (Groups gs)
      else Raise ValueError.
Proof.
  intros H Hmax Hshort.
  destruct (forms_agree_when_split arr (has_break_bounds arr H) Hmax Hshort)
    as (l & gs & _ & _ & Hc & Hs & Hf).
  exists gs. auto.
Qed.

Lemma bounds_all (l : list Z) k :
  Forall (fun d => d <> 1) l ->
  map fst (List.filter (fun '(_i, _diff) => negb (_diff =? 1))
                       (enumerate_from k l)) =
  map (fun j => k + Z.of_nat j) (seq 0 (length l)).
Proof.
  intros H. revert k. induction H as [|d l Hd _ IH]; intros k; [reflexivity|].
  cbn [enumerate_from List.filter length seq].
  replace (negb (d =? 1)) with true
    by (symmetry; now apply negb_true_iff, Z.eqb_neq).
  cbn [map fst]. rewrite IH, <- seq_shift, map_map. f_equal; [lia|].
  apply map_ext. intros j. lia.
Qed.

Lemma combine_diag {A : Type} (l : list A) :
  combine l l = map (fun x => (x, x)) l.
Proof. induction l as [|x t IH]; [reflexivity|]. cbn. now rewrite IH. Qed.

(** X6. When no int64 difference between neighbours is one (a constant or a
    decreasing sequence, say), every element is a run of its own: the pairs
    are [(0, 0), (1, 1), ..., (N-1, N-1)]. *)
Theorem no_run_all_singletons (arr : list Z) :
  1 <= len arr -> Forall (fun d => d <> 1) (np.diff arr) ->
  exists d,
    math_utils.get_consecutive_num_intervals ragged_arrays arr true =
      Ok (Intervals
            (np.mk_ndarray2 d
               (map (fun k => (k, k)) (np.int_range 0 (len arr))))).
Proof.
  intros Hn Hd. rewrite (intervals_rows ragged_arrays). eexists. do 3 f_equal.
  unfold bounds_of, enumerate. rewrite (bounds_all _ 0 Hd), length_diff.
  unfold len in *. destruct (length arr) as [|m]; [lia|]. cbn [pred].
  unfold np.int_range.
  replace (Z.to_nat (Z.of_nat (S m) - 0)) with (S m) by lia.
  assert (E1 : map (fun x => x + 1)
                 (-1 :: map (fun j => 0 + Z.of_nat j) (seq 0 m)) =
               map (fun k => 0 + Z.of_nat k) (seq 0 (S m))).
  { cbn [map seq]. f_equal. rewrite <- seq_shift, !map_map.
    apply map_ext. intros j. lia. }
  assert (E2 : map (fun j => 0 + Z.of_nat j) (seq 0 m) ++ [Z.of_nat (S m) - 1] =
               map (fun k => 0 + Z.of_nat k) (seq 0 (S m))).
  { rewrite seq_S, map_app. cbn [map]. do 2 f_equal. lia. }
  rewrite E1, E2. apply combine_diag.
Qed.

End IntervalGrouperMore.


Lemma single_run_always_raises_witness :
  math_utils.get_consecutive_num_intervals false [41] false =
    Raise TypeError /\
  data_proc_utils.get_consecutive_num_intervals false [41] false =
    Raise TypeError.
Proof.
  apply (single_run_always_raises false [41]).
  intros [|[|i]] a b Ha Hb; discriminate.
Defined.

Lemma split_forms_agree_witness :
  exists l gs,
    math_utils.get_consecutive_num_intervals false [4; 5; 9] true =
      Ok (Intervals (np.mk_ndarray2 np.int64 l)) /\
    expand_intervals [4; 5; 9] l = Some gs /\
    math_utils.get_consecutive_num_intervals false [4; 5; 9] false =
      if false || equal_lengths gs then Ok (Groups gs)
      else Raise ValueError.
Proof.
  apply (split_forms_agree false [4; 5; 9]).
  - exists 1%nat, 4. split; [reflexivity|discriminate].
  - repeat constructor; lia.
  - reflexivity.
Defined.

Lemma groups_concat_witness :
  exists gs,
    concat gs = [4; 5; 9] /\
    Forall steps_by_one gs /\
    math_utils.get_consecutive_num_intervals true [4; 5; 9] false =
      if true || equal_lengths gs then Ok (Groups gs)
      else Raise ValueError.
Proof.
  apply (groups_concat true [4; 5; 9]).
  - exists 1%nat, 4. split; [reflexivity|discriminate].
  - repeat constructor; lia.
  - reflexivity.
Defined.

Lemma no_run_all_singletons_witness :
  exists d,
    math_utils.get_consecutive_num_intervals false [7; 7; 3] true =
      Ok (Intervals
            (np.mk_ndarray2 d
               (map (fun k => (k, k)) (np.int_range 0 (len [7; 7; 3]))))).
Proof.
  apply (no_run_all_singletons false [7; 7; 3]).
  - vm_compute. discriminate.
  - repeat constructor; vm_compute; discriminate.
Defined.

(** At the largest int64 the last run is [np.arange(2^63 - 1, 2^63)], a
    float64 array that holds 2^63; a run that wraps around in int64 is
    empty. *)
Example largest_int64_run :
  forall ragged,
    math_utils.get_consecutive_num_intervals ragged [0; 2 ^ 63 - 1] false =
    Ok (Groups [[0]; [2 ^ 63]]).
Proof. intros [|]; vm_compute; reflexivity. Qed.

Example wrapped_run :
  math_utils.get_consecutive_num_intervals true
    [0; 2 ^ 63 - 1; - 2 ^ 63] false = Ok (Groups [[0]; []]) /\
  math_utils.get_consecutive_num_intervals false
    [0; 2 ^ 63 - 1; - 2 ^ 63] false = Raise ValueError.
Proof. split; vm_compute; reflexivity. Qed.

(** * More on the unstacker *)

Section UnstackMore.

Import data_proc_utils.

Variable new_stack : bool.
Variable quicksort :
  bool -> list (list pyval * spec_float) -> list (list pyval * spec_float).
Variable py_str : list pyval -> string.

Lemma fst_combine {A B : Type} (l1 : list A) (l2 : list B) :
  length l1 = length l2 -> map fst (combine l1 l2) = l1.
Proof.
  revert l2. induction l1 as [|a l1 IH]; intros [|b l2] H;
    try discriminate; [reflexivity|].
  cbn. f_equal. apply IH. now injection H.
Qed.

(** What the call returns is a reference that was not in use. *)
Lemma unstack_corr_df_new h0 corr ascending col_name_1 col_name_2 :
  keeps h0
    (unstack_corr_df new_stack quicksort py_str corr ascending col_name_1
       col_name_2)
    (fun r => h0 !! r = None).
Proof.
  unfold unstack_corr_df, DataFrame_unstack, Series_sort_values,
    Series_to_frame, DataFrame_reset_index_inplace, DataFrame_query_ne,
    DataFrame_getitem_columns, DataFrame_apply_sorted, DataFrame_getitem_mask,
    DataFrame_set_columns.
  repeat first
    [ apply keeps_ret; assumption
    | apply keeps_alloc
    | apply keeps_lift
    | apply keeps_get_frame
    | apply keeps_get_series
    | apply keeps_put; assumption
    | eapply keeps_bind; [|intros ? ?] ].
Qed.

Hypothesis quicksort_perm :
  forall ascending l, Permutation (quicksort ascending l) l.

(** X7. On every labelled matrix over distinct labels (square or not) the
    call returns: a new frame, at a reference that was not in use, with the
    columns [col_name_1], [col_name_2], ['corr'] and the index
    0, 1, ..., m-1; in each row the two labels differ. *)
Theorem unstack_returns_new_frame (h : store) corr labels vals ascending
  col_name_1 col_name_2 :
  h !! corr = Some (ODataFrame (corr_matrix labels vals)) ->
  List.NoDup labels ->
  exists r h' out,
    unstack_corr_df new_stack quicksort py_str corr ascending col_name_1
      col_name_2 h = (Ok r, h') /\
    h !! r = None /\
    h' !! r = Some (ODataFrame out) /\
    pd.index_names out = [PNone] /\
    pd.columns out = [col_name_1; col_name_2; PStr "corr"] /\
    map fst (pd.rows out) = pd.range_index (length (pd.rows out)) /\
    Forall (fun row => exists a b v, snd row = edge_row a b v /\ a <> b)
           (pd.rows out).
Proof.
  intros Hcorr Hnd.
  destruct (unstack_corr_df_run new_stack quicksort py_str quicksort_perm h
              corr labels vals ascending col_name_1 col_name_2 Hcorr Hnd)
    as (T & r & h' & _ & _ & Hrun & Hr).
  pose proof (unstack_corr_df_new h corr ascending col_name_1 col_name_2 h
                (reflexivity h)) as Hnew.
  rewrite Hrun in Hnew. destruct Hnew as [_ Hnew].
  exists r, h', (edge_table col_name_1 col_name_2 (kept_edges py_str T)).
  split; [exact Hrun|]. split; [exact Hnew|]. split; [exact Hr|].
  split; [reflexivity|]. split; [reflexivity|].
  unfold edge_table, pd.range_index. cbn [pd.rows].
  rewrite length_combine, !length_map, length_seq, Nat.min_id. split.
  - apply fst_combine. now rewrite !length_map, length_seq.
  - apply List.Forall_forall. intros [i cells] Hin.
    apply in_combine_r, in_map_iff in Hin.
    destruct Hin as ([[a b] v] & <- & He).
    exists a, b, v. split; [reflexivity|].
    unfold kept_edges in He. apply first_of_key_In, filter_In in He.
    destruct He as [_ He]. cbn in He.
    now apply negb_true_iff, String.eqb_neq in He.
Qed.

Hypothesis quicksort_sorted :
  forall ascending l,
    StronglySorted (fun p q => na_last ascending (snd p) (snd q) = true)
                   (quicksort ascending l).

(** X8. On every labelled matrix over distinct labels, NaN entries
    included, the rows of the returned table are in the order of
    [sort_values]: of two rows, the lower one holds NaN, or neither does and
    the two correlations are in the direction asked for.  Rows with a NaN
    correlation are at the bottom in both directions. *)
Theorem unstack_nan_last (h : store) corr labels vals ascending
  col_name_1 col_name_2 :
  h !! corr = Some (ODataFrame (corr_matrix labels vals)) ->
  List.NoDup labels ->
  exists r h' edges,
    unstack_corr_df new_stack quicksort py_str corr ascending col_name_1
      col_name_2 h = (Ok r, h') /\
    h' !! r = Some (ODataFrame (edge_table col_name_1 col_name_2 edges)) /\
    StronglySorted
      (fun e1 e2 => na_last ascending (snd e1) (snd e2) = true) edges.
Proof.
  intros Hcorr Hnd.
  destruct (unstack_corr_df_run new_stack quicksort py_str quicksort_perm h
              corr labels vals ascending col_name_1 col_name_2 Hcorr Hnd)
    as (T & r & h' & _ & HT & Hrun & Hr).
  exists r, h', (kept_edges py_str T).
  split; [exact Hrun|]. split; [exact Hr|].
  pose proof (quicksort_sorted ascending
                (map series_item (all_edges labels vals))) as Hs.
  rewrite HT in Hs. apply StronglySorted_map_inv in Hs.
  unfold kept_edges. apply first_of_key_sorted, StronglySorted_filter.
  eapply StronglySorted_weaken with (P := fun _ => True); [| |exact Hs].
  - intros [[c1 r1] x1] [[c2 r2] x2] _ _ H. exact H.
  - apply List.Forall_forall. auto.
Qed.

Lemma first_of_key_first {A : Type} (key : A -> string) seen l x :
  In x (first_of_key key seen l) ->
  exists l1 l2, l = l1 ++ x :: l2 /\ Forall (fun y => key y <> key x) l1.
Proof.
  revert seen. induction l as [|y t IH]; intros seen; cbn [first_of_key];
    [intros []|].
  assert (Hrest : In x (first_of_key key (key y :: seen) t) ->
            exists l1 l2, y :: t = l1 ++ x :: l2 /\
                          Forall (fun z => key z <> key x) l1).
  { intros H. destruct (IH _ H) as (l1 & l2 & -> & Hl1).
    exists (y :: l1), l2. split; [reflexivity|].
    constructor; [|exact Hl1].
    intros E. apply (first_of_key_fresh key _ _ _ H). now left. }
  destruct (existsb _ seen); [exact Hrest|].
  intros [<-|H]; [|exact (Hrest H)].
  exists [], t. split; [reflexivity|constructor].
Qed.

Lemma filter_split {A : Type} (p : A -> bool) l l1 x l2 :
  List.filter p l = l1 ++ x :: l2 ->
  exists t1 t2, l = t1 ++ x :: t2 /\ List.filter p t1 = l1.
Proof.
  revert l1. induction l as [|y t IH]; intros l1 H; cbn in H.
  - now destruct l1.
  - destruct (p y) eqn:Ey.
    + destruct l1 as [|z l1]; cbn in H; injection H as -> H.
      * exists [], t. auto.
      * destruct (IH _ H) as (t1 & t2 & -> & Ht1).
        exists (z :: t1), t2. split; [reflexivity|].
        cbn. now rewrite Ey, Ht1.
    + destruct (IH _ H) as (t1 & t2 & -> & Ht1).
      exists (y :: t1), t2. split; [reflexivity|]. cbn. now rewrite Ey.
Qed.

(** X10. On a labelled matrix over distinct labels, of the two mirrored
    rows of a pair of labels the table keeps the one that comes first in the
    sorted Series: every row returned is the first edge of its unordered
    pair in the output of [sort_values]. *)
Theorem unstack_keeps_first (h : store) corr labels vals ascending
  col_name_1 col_name_2 :
  h !! corr = Some (ODataFrame (corr_matrix labels vals)) ->
  List.NoDup labels ->
  exists r h' edges sorted,
    unstack_corr_df new_stack quicksort py_str corr ascending col_name_1
      col_name_2 h = (Ok r, h') /\
    h' !! r = Some (ODataFrame (edge_table col_name_1 col_name_2 edges)) /\
    quicksort ascending (map series_item (all_edges labels vals)) =
      map series_item sorted /\
    Forall (first_of_pair sorted) edges.
Proof.
  intros Hcorr Hnd.
  destruct (unstack_corr_df_run new_stack quicksort py_str quicksort_perm h
              corr labels vals ascending col_name_1 col_name_2 Hcorr Hnd)
    as (T & r & h' & _ & HT & Hrun & Hr).
  exists r, h', (kept_edges py_str T), T.
  split; [exact Hrun|]. split; [exact Hr|]. split; [exact HT|].
  apply List.Forall_forall. intros e He.
  pose proof (kept_edges_In py_str T e He) as [_ Hpair].
  unfold kept_edges in He.
  destruct (first_of_key_first _ _ _ _ He) as (l1 & l2 & Hl & Hl1).
  destruct (filter_split _ _ _ _ _ Hl) as (t1 & t2 & -> & Ht1).
  exists t1, t2. split; [reflexivity|].
  apply List.Forall_forall. intros e' He' Hsame.
  destruct (is_pair e') eqn:Ep.
  - assert (Hin : In e' l1) by (rewrite <- Ht1; now apply filter_In).
    apply (proj1 (List.Forall_forall _ _) Hl1 e' Hin).
    rewrite !pair_key_label_key. now apply same_pair_key.
  - destruct e' as [[a b] x], e as [[c d] y]. cbn in Ep, Hpair, Hsame.
    apply negb_false_iff, String.eqb_eq in Ep.
    apply negb_true_iff, String.eqb_neq in Hpair.
    unfold same_pair in Hsame. cbn in Hsame. subst b.
    destruct Hsame as [[-> ->]|[-> ->]]; contradiction.
Qed.

Hypothesis py_str_inj :
  forall l1 l2 : list string,
    py_str (map PStr l1) = py_str (map PStr l2) -> l1 = l2.

(** X9. When the labels are distinct and the matrix has a row for every
    label, every unordered pair of two different labels has a row in the
    returned table, in one of its two orientations. *)
Theorem unstack_covers_pairs (h : store) corr labels vals ascending
  col_name_1 col_name_2 :
  h !! corr = Some (ODataFrame (corr_matrix labels vals)) ->
  length vals = length labels -> List.NoDup labels ->
  exists r h' edges,
    unstack_corr_df new_stack quicksort py_str corr ascending col_name_1
      col_name_2 h = (Ok r, h') /\
    h' !! r = Some (ODataFrame (edge_table col_name_1 col_name_2 edges)) /\
    forall a b, In a labels -> In b labels -> a <> b ->
      exists e, In e edges /\ same_pair (labels_of e) (a, b).
Proof.
  intros Hcorr Hlen Hnd.
  destruct (unstack_corr_df_run new_stack quicksort py_str quicksort_perm h
              corr labels vals ascending col_name_1 col_name_2 Hcorr Hnd)
    as (T & r & h' & HP & _ & Hrun & Hr).
  exists r, h', (kept_edges py_str T).
  split; [exact Hrun|]. split; [exact Hr|].
  intros a b Ha Hb Hne.
  destruct (all_edges_total labels vals a b Hlen Ha Hb) as [x Hx].
  apply (Permutation_in _ (Permutation_sym HP)) in Hx.
  assert (Hf : In (a, b, x) (List.filter is_pair T)).
  { apply filter_In. split; [exact Hx|]. cbn.
    now apply negb_true_iff, String.eqb_neq. }
  destruct (first_of_key_covers (pair_key py_str) [] _ _ Hf) as [[]|Hk].
  apply in_map_iff in Hk. destruct Hk as (e & Ek & He).
  exists e. split; [exact He|].
  rewrite !pair_key_label_key in Ek.
  exact (label_key_inj py_str py_str_inj _ _ Ek).
Qed.

End UnstackMore.

Lemma unstack_returns_new_frame_witness :
  exists r h' out,
    data_proc_utils.unstack_corr_df true insertion_sort render_list 5%nat false
      (PStr "col_1") (PStr "col_2") example_store = (Ok r, h') /\
    example_store !! r = None /\
    h' !! r = Some (ODataFrame out) /\
    pd.index_names out = [PNone] /\
    pd.columns out = [PStr "col_1"; PStr "col_2"; PStr "corr"] /\
    map fst (pd.rows out) = pd.range_index (length (pd.rows out)) /\
    Forall (fun row => exists a b v, snd row = edge_row a b v /\ a <> b)
           (pd.rows out).
Proof.
  apply (unstack_returns_new_frame true insertion_sort render_list
           insertion_sort_perm example_store 5%nat ["A"; "B"; "C"]
           example_vals).
  - reflexivity.
  - exact example_labels_distinct.
Defined.

Lemma unstack_nan_last_witness :
  exists r h' edges,
    data_proc_utils.unstack_corr_df true insertion_sort render_list 2%nat true
      (PStr "col_1") (PStr "col_2") example_nan_store = (Ok r, h') /\
    h' !! r =
      Some (ODataFrame (edge_table (PStr "col_1") (PStr "col_2") edges)) /\
    StronglySorted (fun e1 e2 => na_last true (snd e1) (snd e2) = true) edges.
Proof.
  apply (unstack_nan_last true insertion_sort render_list insertion_sort_perm
           insertion_sort_sorted example_nan_store 2%nat ["A"; "B"; "C"]
           example_nan_vals).
  - reflexivity.
  - exact example_labels_distinct.
Defined.

(** The matrix with the missing correlation, run in both directions: the
    row of A and B is the last one each time. *)
Example unstack_nan_example :
  forall ascending,
    let '(r, h') :=
      data_proc_utils.unstack_corr_df true insertion_sort render_list 2%nat
        ascending (PStr "col_1") (PStr "col_2") example_nan_store in
    match r with
    | Ok l =>
        h' !! l =
        Some (ODataFrame
                (edge_table (PStr "col_1") (PStr "col_2")
                   (if ascending
                    then [("A", "C", S754_finite false 3 (-3));
                          ("B", "C", S754_finite false 7 (-3));
                          ("A", "B", S754_nan)]
                    else [("B", "C", S754_finite false 7 (-3));
                          ("A", "C", S754_finite false 3 (-3));
                          ("A", "B", S754_nan)])))
    | Raise _ => False
    end.
Proof. intros [|]; vm_compute; reflexivity. Qed.

Lemma unstack_keeps_first_witness :
  exists r h' edges sorted,
    data_proc_utils.unstack_corr_df true insertion_sort render_list 5%nat false
      (PStr "col_1") (PStr "col_2") example_store = (Ok r, h') /\
    h' !! r =
      Some (ODataFrame (edge_table (PStr "col_1") (PStr "col_2") edges)) /\
    insertion_sort false
      (map series_item (all_edges ["A"; "B"; "C"] example_vals)) =
      map series_item sorted /\
    Forall (first_of_pair sorted) edges.
Proof.
  apply (unstack_keeps_first true insertion_sort render_list
           insertion_sort_perm example_store 5%nat ["A"; "B"; "C"]
           example_vals).
  - reflexivity.
  - exact example_labels_distinct.
Defined.

Lemma unstack_covers_pairs_witness :
  exists r h' edges,
    data_proc_utils.unstack_corr_df true insertion_sort render_list 5%nat false
      (PStr "col_1") (PStr "col_2") example_store = (Ok r, h') /\
    h' !! r =
      Some (ODataFrame (edge_table (PStr "col_1") (PStr "col_2") edges)) /\
    forall a b, In a ["A"; "B"; "C"] -> In b ["A"; "B"; "C"] -> a <> b ->
      exists e, In e edges /\ same_pair (labels_of e) (a, b).
Proof.
  apply (unstack_covers_pairs true insertion_sort render_list
           insertion_sort_perm render_list_inj example_store 5%nat
           ["A"; "B"; "C"] example_vals).
  - reflexivity.
  - reflexivity.
  - exact example_labels_distinct.
Defined.

(** A label that occurs twice: pandas 2.1 and later raise in
    [corr.unstack()], earlier ones return. *)
Example unstack_duplicate_labels :
  let h : gmap nat pyobj :=
    {[ 5%nat := ODataFrame (corr_matrix ["A"; "B"; "A"] example_vals) ]} in
  fst (data_proc_utils.unstack_corr_df true insertion_sort render_list 5%nat
         false (PStr "col_1") (PStr "col_2") h) = Raise ValueError /\
  exists r,
    fst (data_proc_utils.unstack_corr_df false insertion_sort render_list
           5%nat false (PStr "col_1") (PStr "col_2") h) = Ok r.
Proof. split; [vm_compute; reflexivity|]. eexists. vm_compute. reflexivity. Qed.

(** * Properties of the logger set-up and the timer *)

Section ExecUtils.

Import exec_utils.

Variable asctime : Z -> string.
Variable seconds_2f : Z -> Z -> string.


Lemma format_info t msg :
  format asctime get_logger_formatter
    (logging.mk_LogRecord t logging.INFO "INFO" msg) =
  info_line asctime t msg.
Proof.
  unfold format, get_logger_formatter, info_line. reflexivity.
Qed.

(** What [logger.info] does once the root logger is at DEBUG with the
    stream handler alone, or with the file handler after it. *)
Lemma info_stream_only ls msg rt err out fs t o :
  rt = logging.mk_Logger logging.DEBUG
         [logging.mk_Handler logging.Stderr get_logger_formatter ls] ->
  Logger_info asctime root_logger msg (mk_world rt err out fs t o) =
  (Ok tt,
   mk_world rt (err ++ if_info ls (info_line asctime t msg)) out fs t o).
Proof.
  intros ->. unfold Logger_info, if_info.
  cbn [root logging.l_level logging.l_handlers callHandlers logging.h_level
       logging.h_stream logging.h_formatter logging.levelno clock].
  change (logging.DEBUG <=? logging.INFO) with true. cbn iota.
  destruct (ls <=? logging.INFO).
  - unfold write_line. cbn [root stderr stdout files clock can_open].
    now rewrite format_info.
  - now rewrite app_nil_r.
Qed.

Lemma get_logger_stream_only s f ls w :
  logging._checkLevel s = Ok ls ->
  get_logger asctime s f None w =
  (Ok root_logger,
   mk_world
     (logging.mk_Logger logging.DEBUG
        [logging.mk_Handler logging.Stderr get_logger_formatter ls])
     (stderr w ++ if_info ls (info_line asctime (clock w) "logger set up"))
     (stdout w) (files w) (clock w) (can_open w)).
Proof.
  intros Hs. unfold get_logger, io_bind, io_lift, Logger_addHandler, get_root,
    set_root, io_ret, Logger_set_handlers, Logger_setLevel, Handler_setLevel,
    Handler_setFormatter, StreamHandler, FileHandler.
  cbn -[Z.leb Logger_info]. rewrite Hs. cbn -[Z.leb Logger_info].
  now rewrite (info_stream_only ls) by reflexivity.
Qed.

Lemma get_logger_with_file s f ls lf path w :
  logging._checkLevel s = Ok ls -> logging._checkLevel f = Ok lf ->
  can_open w path = true ->
  get_logger asctime s f (Some path) w =
  (Ok root_logger,
   mk_world
     (logging.mk_Logger logging.DEBUG
        [logging.mk_Handler logging.Stderr get_logger_formatter ls;
         logging.mk_Handler (logging.FileStream path) get_logger_formatter lf])
     (stderr w ++ if_info ls (info_line asctime (clock w) "logger set up"))
     (stdout w)
     (<[path := default [] (files w !! path) ++
                if_info lf (info_line asctime (clock w) "logger set up")]>
        (files w))
     (clock w) (can_open w)).
Proof.
  intros Hs Hf Ho. unfold get_logger, io_bind, io_lift, Logger_addHandler,
    get_root, set_root, io_ret, open_append, Logger_set_handlers,
    Logger_setLevel, Handler_setLevel, Handler_setFormatter, StreamHandler,
    FileHandler.
  cbn -[Z.leb Logger_info]. rewrite Hs. cbn -[Z.leb Logger_info].
  unfold io_bind, open_append, io_ret. cbn -[Z.leb Logger_info].
  rewrite Ho. cbn -[Z.leb Logger_info].
  rewrite Hf. cbn -[Z.leb Logger_info].
  unfold Logger_info, if_info.
  cbn [root logging.l_level logging.l_handlers callHandlers logging.h_level
       logging.h_stream logging.h_formatter logging.levelno clock].
  change (logging.DEBUG <=? logging.INFO) with true. cbn iota.
  destruct (ls <=? logging.INFO), (lf <=? logging.INFO);
    unfold write_line; cbn [root stderr stdout files clock can_open];
    rewrite ?format_info, ?lookup_insert_eq, ?insert_insert_eq, ?app_nil_r;
    reflexivity.
Qed.

(** A file level that is an unknown name, on a path that can be opened:
    the file is opened, and then [fh.setLevel] raises. *)
Lemma get_logger_bad_file_level s f ls e path w :
  logging._checkLevel s = Ok ls -> logging._checkLevel f = Raise e ->
  can_open w path = true ->
  get_logger asctime s f (Some path) w =
  (Raise e,
   mk_world
     (logging.mk_Logger logging.DEBUG
        [logging.mk_Handler logging.Stderr get_logger_formatter ls])
     (stderr w) (stdout w)
     (<[path := default [] (files w !! path)]> (files w)) (clock w)
     (can_open w)).
Proof.
  intros Hs Hf Ho. unfold get_logger, io_bind, io_lift, Logger_addHandler,
    get_root, set_root, io_ret, open_append, Logger_set_handlers,
    Logger_setLevel, Handler_setLevel, Handler_setFormatter, StreamHandler,
    FileHandler.
  cbn -[Z.leb Logger_info]. rewrite Hs.
  cbn -[Z.leb Logger_info].
  unfold io_bind, open_append, io_ret.
  cbn -[Z.leb Logger_info]. rewrite Ho.
  cbn -[Z.leb Logger_info]. now rewrite Hf.
Qed.

(** A path that cannot be opened: [FileHandler] raises OSError with the
    stream handler in place, before the file level is looked at. *)
Lemma get_logger_cannot_open s f ls path w :
  logging._checkLevel s = Ok ls -> can_open w path = false ->
  get_logger asctime s f (Some path) w =
  (Raise OSError,
   mk_world
     (logging.mk_Logger logging.DEBUG
        [logging.mk_Handler logging.Stderr get_logger_formatter ls])
     (stderr w) (stdout w) (files w) (clock w) (can_open w)).
Proof.
  intros Hs Ho. unfold get_logger, io_bind, io_lift, Logger_addHandler,
    get_root, set_root, io_ret, open_append, Logger_set_handlers,
    Logger_setLevel, Handler_setLevel, Handler_setFormatter, StreamHandler,
    FileHandler.
  cbn -[Z.leb Logger_info]. rewrite Hs.
  cbn -[Z.leb Logger_info].
  unfold io_bind, open_append, io_ret.
  cbn -[Z.leb Logger_info]. now rewrite Ho.
Qed.

Lemma get_logger_bad_stream_level s f e out_file w :
  logging._checkLevel s = Raise e ->
  get_logger asctime s f out_file w =
  (Raise e,
   mk_world (logging.mk_Logger logging.DEBUG []) (stderr w) (stdout w)
            (files w) (clock w) (can_open w)).
Proof.
  intros Hs. unfold get_logger, io_bind, io_lift, Logger_set_handlers,
    Logger_setLevel, Handler_setLevel, get_root, set_root, io_ret.
  cbn -[Z.leb Logger_info]. now rewrite Hs.
Qed.

(** X11. The root logger that [get_logger] leaves behind, and whether the
    call returns or what it raises, depend on the arguments and on whether
    [out_file] can be opened, and on nothing else: whatever handlers and
    level the root logger had before are gone, so calling again does not
    pile up handlers.  This holds also when the call raises. *)
Theorem get_logger_resets s f out_file (w1 w2 : world) :
  (forall path, out_file = Some path ->
     can_open w1 path = can_open w2 path) ->
  root (snd (get_logger asctime s f out_file w1)) =
  root (snd (get_logger asctime s f out_file w2)) /\
  fst (get_logger asctime s f out_file w1) =
  fst (get_logger asctime s f out_file w2).
Proof.
  intros Hopen.
  destruct (logging._checkLevel s) as [ls|e] eqn:Hs.
  - destruct out_file as [path|].
    + specialize (Hopen path eq_refl).
      destruct (can_open w2 path) eqn:Ho.
      * destruct (logging._checkLevel f) as [lf|e] eqn:Hf.
        -- rewrite !(get_logger_with_file s f ls lf) by assumption. auto.
        -- rewrite !(get_logger_bad_file_level s f ls e) by assumption. auto.
      * rewrite !(get_logger_cannot_open s f ls) by assumption. auto.
    + rewrite !(get_logger_stream_only s f ls) by assumption. auto.
  - rewrite !(get_logger_bad_stream_level s f e) by assumption. auto.
Qed.

(** X12. Without [out_file], and with a stream level that is an int or a
    known name, the call returns whatever [file_hdlr_level] is; the root
    logger ends at DEBUG with one handler, on stderr at the stream level;
    ['logger set up'] is written to stderr when that level is INFO or lower,
    and not otherwise; stdout and the files are untouched. *)
Theorem get_logger_stream s f ls (w : world) :
  logging._checkLevel s = Ok ls ->
  exists w',
    get_logger asctime s f None w = (Ok root_logger, w') /\
    root w' = logging.mk_Logger logging.DEBUG
                [logging.mk_Handler logging.Stderr get_logger_formatter ls] /\
    stderr w' =
      stderr w ++ if_info ls (info_line asctime (clock w) "logger set up") /\
    stdout w' = stdout w /\ files w' = files w.
Proof.
  intros Hs. eexists. split; [exact (get_logger_stream_only s f ls w Hs)|].
  cbn [root stderr stdout files]. auto.
Qed.

(** X13. A stream level that is an unknown name makes the call raise
    ValueError; by then the root logger has lost its handlers and is at
    DEBUG, nothing has been written, and [out_file] has not been opened. *)
Theorem get_logger_unknown_stream_level name f out_file (w : world) :
  logging.name_level logging._nameToLevel name = None ->
  get_logger asctime (logging.LevelName name) f out_file w =
  (Raise ValueError,
   mk_world (logging.mk_Logger logging.DEBUG []) (stderr w) (stdout w)
            (files w) (clock w) (can_open w)).
Proof.
  intros H. unfold get_logger, io_bind, io_lift, Logger_set_handlers,
    Logger_setLevel, Handler_setLevel, get_root, set_root, io_ret,
    logging._checkLevel.
  cbn -[Z.leb Logger_info logging.name_level]. now rewrite H.
Qed.

(** X14. With an [out_file] that can be opened and two levels that are
    ints or known names, the call returns; the root logger has the stderr
    handler and then the file handler; the file is there afterwards with
    what it held before, followed by the ['logger set up'] line when the
    file level is INFO or lower. *)
Theorem get_logger_file s f ls lf path (w : world) :
  logging._checkLevel s = Ok ls -> logging._checkLevel f = Ok lf ->
  can_open w path = true ->
  exists w',
    get_logger asctime s f (Some path) w = (Ok root_logger, w') /\
    logging.l_handlers (root w') =
      [logging.mk_Handler logging.Stderr get_logger_formatter ls;
       logging.mk_Handler (logging.FileStream path) get_logger_formatter lf] /\
    files w' !! path =
      Some (default [] (files w !! path) ++
            if_info lf (info_line asctime (clock w) "logger set up")) /\
    (forall other, other <> path -> files w' !! other = files w !! other) /\
    stderr w' =
      stderr w ++ if_info ls (info_line asctime (clock w) "logger set up").
Proof.
  intros Hs Hf Ho. eexists.
  split; [exact (get_logger_with_file s f ls lf path w Hs Hf Ho)|].
  cbn [root stderr stdout files logging.l_handlers].
  split; [reflexivity|]. split; [apply lookup_insert_eq|].
  split; [|reflexivity]. intros other Hne. now apply lookup_insert_ne.
Qed.

(** X15. With an [out_file] that can be opened and a file level that is
    an unknown name the call raises ValueError after the stream handler is
    in place and the file is opened: the root logger keeps the stderr
    handler alone, the file exists with its old content, and
    ['logger set up'] is logged nowhere. *)
Theorem get_logger_unknown_file_level s ls name path (w : world) :
  logging._checkLevel s = Ok ls ->
  logging.name_level logging._nameToLevel name = None ->
  can_open w path = true ->
  get_logger asctime s (logging.LevelName name) (Some path) w =
  (Raise ValueError,
   mk_world
     (logging.mk_Logger logging.DEBUG
        [logging.mk_Handler logging.Stderr get_logger_formatter ls])
     (stderr w) (stdout w)
     (<[path := default [] (files w !! path)]> (files w)) (clock w)
     (can_open w)).
Proof.
  intros Hs H Ho. apply get_logger_bad_file_level; [exact Hs| |exact Ho].
  unfold logging._checkLevel. now rewrite H.
Qed.

(** X16. When the body of the [with] block raises, the exception leaves the
    block and the timer writes no [done] message: the world is the one the
    body left. *)
Theorem timer_body_raises {A : Type} name logger (body : io A) e
  (w w2 : world) :
  body (snd (say asctime logger ("[" ++ name ++ "] start")%string w)) =
    (Raise e, w2) ->
  timer asctime seconds_2f name logger body w = (Raise e, w2).
Proof.
  intros H. unfold timer, io_bind, time_time.
  destruct logger as [l|]; cbn in *.
  - unfold Logger_info in *.
    destruct (logging.l_level (root w) <=? logging.INFO); cbn in *;
      now rewrite H.
  - now rewrite H.
Qed.

(** X17. Without a logger the timer prints to stdout and touches nothing
    else: when the body returns, having added [out] to stdout, stdout holds
    the [start] line, then [out], then the [done] line with the time
    between the two readings of the clock; the root logger, stderr and the
    files are as the body left them. *)
Theorem timer_prints {A : Type} name (body : io A) a out (w w2 : world) :
  body (mk_world (root w) (stderr w)
          (stdout w ++ [("[" ++ name ++ "] start")%string]) (files w)
          (clock w) (can_open w)) = (Ok a, w2) ->
  stdout w2 = (stdout w ++ [("[" ++ name ++ "] start")%string]) ++ out ->
  exists w',
    timer asctime seconds_2f name None body w = (Ok a, w') /\
    stdout w' =
      stdout w ++ [("[" ++ name ++ "] start")%string] ++ out ++
      [("[" ++ name ++ "] done in " ++ seconds_2f (clock w2) (clock w) ++
        " s")%string] /\
    root w' = root w2 /\ stderr w' = stderr w2 /\ files w' = files w2.
Proof.
  intros Hbody Hout. eexists. split.
  - unfold timer, io_bind, time_time, say, print, io_ret. cbn.
    rewrite Hbody. reflexivity.
  - cbn. rewrite Hout, <- !app_assoc. auto.
Qed.

(** X18. With the logger that [get_logger] set up (no file), the timer
    writes its two messages to stderr when the stream level is INFO or
    lower, and nowhere otherwise; it never prints to stdout.  The body is
    one that returns and leaves the root logger alone. *)
Theorem timer_with_get_logger {A : Type} s f ls name (body : io A) a
  (w w0 w1 w2 : world) :
  logging._checkLevel s = Ok ls ->
  w0 = snd (get_logger asctime s f None w) ->
  w1 = snd (say asctime (Some root_logger) ("[" ++ name ++ "] start")%string
              w0) ->
  body w1 = (Ok a, w2) -> root w2 = root w1 ->
  stderr w1 =
    stderr w ++ if_info ls (info_line asctime (clock w) "logger set up") ++
    if_info ls (info_line asctime (clock w) ("[" ++ name ++ "] start")) /\
  stdout w1 = stdout w /\
  exists w',
    timer asctime seconds_2f name (Some root_logger) body w0 = (Ok a, w') /\
    stderr w' =
      stderr w2 ++
      if_info ls
        (info_line asctime (clock w2)
           ("[" ++ name ++ "] done in " ++ seconds_2f (clock w2) (clock w) ++
            " s")) /\
    stdout w' = stdout w2 /\ files w' = files w2.
Proof.
  intros Hs -> -> Hbody Hroot.
  rewrite (get_logger_stream_only s f ls w Hs) in *. cbn [snd] in *.
  unfold say in *.
  rewrite (info_stream_only ls) in Hbody, Hroot by reflexivity.
  rewrite (info_stream_only ls) by reflexivity. cbn [snd] in *.
  split; [now rewrite <- app_assoc|]. split; [reflexivity|].
  destruct w2 as [rt2 err2 out2 fs2 t2 o2]. cbn in Hroot. subst rt2.
  eexists. split.
  - unfold timer, io_bind, time_time, say, io_ret. cbn [clock].
    rewrite (info_stream_only ls) by reflexivity. rewrite Hbody.
    rewrite (info_stream_only ls) by reflexivity. reflexivity.
  - cbn. auto.
Qed.

End ExecUtils.

Lemma get_logger_resets_witness :
  root (snd (exec_utils.get_logger example_asctime (logging.LevelName "INFO")
               (logging.LevelInt 10) (Some "run.log") example_world)) =
  root (snd (exec_utils.get_logger example_asctime (logging.LevelName "INFO")
               (logging.LevelInt 10) (Some "run.log")
               (snd (exec_utils.get_logger example_asctime
                       (logging.LevelName "INFO") (logging.LevelInt 10)
                       (Some "run.log") example_world)))) /\
  fst (exec_utils.get_logger example_asctime (logging.LevelName "INFO")
         (logging.LevelInt 10) (Some "run.log") example_world) =
  fst (exec_utils.get_logger example_asctime (logging.LevelName "INFO")
         (logging.LevelInt 10) (Some "run.log")
         (snd (exec_utils.get_logger example_asctime
                 (logging.LevelName "INFO") (logging.LevelInt 10)
                 (Some "run.log") example_world))).
Proof.
  apply (get_logger_resets example_asctime (logging.LevelName "INFO")
           (logging.LevelInt 10) (Some "run.log") example_world
           (snd (exec_utils.get_logger example_asctime
                   (logging.LevelName "INFO") (logging.LevelInt 10)
                   (Some "run.log") example_world))).
  intros path _. reflexivity.
Defined.

Lemma get_logger_stream_witness :
  exists w',
    exec_utils.get_logger example_asctime (logging.LevelName "INFO")
      (logging.LevelName "no such level") None example_world =
      (Ok root_logger, w') /\
    root w' =
      logging.mk_Logger logging.DEBUG
        [logging.mk_Handler logging.Stderr
           [logging.Asctime; logging.Text " - "; logging.Levelname;
            logging.Text " - "; logging.Message] 20] /\
    stderr w' =
      stderr example_world ++
      if_info 20 (info_line example_asctime (clock example_world)
                    "logger set up") /\
    stdout w' = stdout example_world /\ files w' = files example_world.
Proof.
  apply (get_logger_stream example_asctime (logging.LevelName "INFO")
           (logging.LevelName "no such level") 20 example_world).
  reflexivity.
Defined.

Lemma get_logger_unknown_stream_level_witness :
  exec_utils.get_logger example_asctime (logging.LevelName "info")
    (logging.LevelInt 20) (Some "run.log") example_world =
  (Raise ValueError,
   mk_world (logging.mk_Logger logging.DEBUG []) (stderr example_world)
            (stdout example_world) (files example_world)
            (clock example_world) (can_open example_world)).
Proof.
  apply (get_logger_unknown_stream_level example_asctime "info"
           (logging.LevelInt 20) (Some "run.log") example_world).
  reflexivity.
Defined.

Lemma get_logger_file_witness :
  exists w',
    exec_utils.get_logger example_asctime (logging.LevelName "WARNING")
      (logging.LevelInt 10) (Some "run.log") example_world =
      (Ok root_logger, w') /\
    logging.l_handlers (root w') =
      [logging.mk_Handler logging.Stderr
         [logging.Asctime; logging.Text " - "; logging.Levelname;
          logging.Text " - "; logging.Message] 30;
       logging.mk_Handler (logging.FileStream "run.log")
         [logging.Asctime; logging.Text " - "; logging.Levelname;
          logging.Text " - "; logging.Message] 10] /\
    files w' !! "run.log" =
      Some (default [] (files example_world !! "run.log") ++
            if_info 10 (info_line example_asctime (clock example_world)
                          "logger set up")) /\
    (forall other, other <> "run.log" ->
       files w' !! other = files example_world !! other) /\
    stderr w' =
      stderr example_world ++
      if_info 30 (info_line example_asctime (clock example_world)
                    "logger set up").
Proof.
  apply (get_logger_file example_asctime (logging.LevelName "WARNING")
           (logging.LevelInt 10) 30 10 "run.log" example_world);
    reflexivity.
Defined.

Lemma get_logger_unknown_file_level_witness :
  exec_utils.get_logger example_asctime (logging.LevelInt 20)
    (logging.LevelName "VERBOSE") (Some "run.log") example_world =
  (Raise ValueError,
   mk_world
     (logging.mk_Logger logging.DEBUG
        [logging.mk_Handler logging.Stderr
           [logging.Asctime; logging.Text " - "; logging.Levelname;
            logging.Text " - "; logging.Message] 20])
     (stderr example_world) (stdout example_world)
     (<["run.log" := default [] (files example_world !! "run.log")]>
        (files example_world))
     (clock example_world) (can_open example_world)).
Proof.
  apply (get_logger_unknown_file_level example_asctime (logging.LevelInt 20)
           20 "VERBOSE" "run.log" example_world); reflexivity.
Defined.

Lemma timer_body_raises_witness :
  exec_utils.timer example_asctime example_seconds_2f "job" None
    (io_lift (Raise KeyError) : io unit) example_world =
  (Raise KeyError,
   mk_world (root example_world) (stderr example_world) ["[job] start"]
            (files example_world) (clock example_world)
            (can_open example_world)).
Proof.
  apply (timer_body_raises example_asctime example_seconds_2f "job" None
           (io_lift (Raise KeyError) : io unit) KeyError example_world).
  reflexivity.
Defined.

Lemma timer_prints_witness :
  exists w',
    exec_utils.timer example_asctime example_seconds_2f "job" None
      (print "working") example_world = (Ok tt, w') /\
    stdout w' =
      stdout example_world ++ ["[job] start"] ++ ["working"] ++
      ["[job] done in 0.00 s"] /\
    root w' = root example_world /\ stderr w' = [] /\ files w' = ∅.
Proof.
  apply (timer_prints example_asctime example_seconds_2f "job"
           (print "working") tt ["working"] example_world
           (mk_world (root example_world) [] ["[job] start"; "working"] ∅ 0
              example_can_open));
    reflexivity.
Defined.

Lemma timer_with_get_logger_witness :
  exists w',
    exec_utils.timer example_asctime example_seconds_2f "job"
      (Some root_logger) (print "working")
      (snd (exec_utils.get_logger example_asctime (logging.LevelName "INFO")
              (logging.LevelInt 0) None example_world)) = (Ok tt, w') /\
    stderr w' =
      ["2021-03-04 05:06:07,000 - INFO - logger set up";
       "2021-03-04 05:06:07,000 - INFO - [job] start";
       "2021-03-04 05:06:07,000 - INFO - [job] done in 0.00 s"] /\
    stdout w' = ["working"] /\ files w' = ∅.
Proof.
  refine (proj2 (proj2
    (timer_with_get_logger example_asctime example_seconds_2f
       (logging.LevelName "INFO") (logging.LevelInt 0) 20 "job"
       (print "working") tt example_world _ _
       (mk_world
          (logging.mk_Logger logging.DEBUG
             [logging.mk_Handler logging.Stderr
                [logging.Asctime; logging.Text " - "; logging.Levelname;
                 logging.Text " - "; logging.Message] 20])
          ["2021-03-04 05:06:07,000 - INFO - logger set up";
           "2021-03-04 05:06:07,000 - INFO - [job] start"]
          ["working"] ∅ 0 example_can_open)
       eq_refl eq_refl eq_refl _ _))); reflexivity.
Defined.

(** An [out_file] that cannot be opened: OSError, with the stream handler
    in place and nothing logged. *)
Example get_logger_empty_path :
  exec_utils.get_logger example_asctime (logging.LevelInt 20)
    (logging.LevelName "VERBOSE") (Some "") example_world =
  (Raise OSError,
   mk_world
     (logging.mk_Logger logging.DEBUG
        [logging.mk_Handler logging.Stderr get_logger_formatter 20])
     [] [] ∅ 0 example_can_open).
Proof. reflexivity. Qed.
